(** * Shallow embedding of [api/gerar.py]

    The module parses a CAF code ([parse_caf]), reads the identifiers
    registered for a month and year in the reference spreadsheet
    ([ler_identificadores_unicos_ordenados]), expands the identifier slot
    of the code ([gerar_combos]) and answers the POST request
    ([handler.do_POST]).

    Python [str] values are modelled as lists of characters ([list ascii]),
    for text in the ASCII range: [str.upper], [str.strip], the classes of
    the [re] module and [int] are given their meaning on ASCII characters.
    A character above 127 is inert in the model (no letter, no digit, no
    space, left alone by [upper]). *)

From Stdlib Require Import Ascii String List ZArith Lia Bool.
From Stdlib Require Import Sorting.Sorted Sorting.Permutation.
From Stdlib Require Import Numbers.DecimalString.
From Stdlib Require Numbers.DecimalPos.
Import ListNotations.

Open Scope string_scope.
Open Scope list_scope.
Open Scope Z_scope.

(** ** Strings *)

Abbreviation str := (list ascii).

Coercion list_ascii_of_string : string >-> list.

Definition code (c : ascii) : N := N_of_ascii c.

Definition in_range (lo hi : N) (c : ascii) : bool :=
  ((lo <=? code c) && (code c <=? hi))%N.

(** [str.isspace] on ASCII: tab, line feed, vertical tab, form feed,
    carriage return, the four separators 0x1c..0x1f, and the space.  The
    class [\s] of [re] and the whitespace skipped by [int] and [str.strip]
    are the same set. *)
Definition is_space (c : ascii) : bool :=
  in_range 9 13 c || in_range 28 31 c || (code c =? 32)%N.

(** [\d] *)
Definition is_digit (c : ascii) : bool := in_range 48 57 c.

Definition is_upper (c : ascii) : bool := in_range 65 90 c.
Definition is_lower (c : ascii) : bool := in_range 97 122 c.

(** [[A-Z]] under [re.IGNORECASE] *)
Definition is_letter (c : ascii) : bool := is_upper c || is_lower c.

(** one character of [str.upper] *)
Definition upper_char (c : ascii) : ascii :=
  if is_lower c then ascii_of_N (code c - 32) else c.

Definition upper (s : str) : str := map upper_char s.

Fixpoint lstrip (s : str) : str :=
  match s with
  | c :: s' => if is_space c then lstrip s' else s
  | [] => []
  end.

Definition rstrip (s : str) : str := rev (lstrip (rev s)).

(** [s.strip()] *)
Definition strip (s : str) : str := lstrip (rstrip s).

Definition space : ascii := " "%char.

(** [s.replace(" ", "")] *)
Definition remove_spaces (s : str) : str :=
  filter (fun c => negb (Ascii.eqb c space)) s.

Fixpoint str_eqb (a b : str) : bool :=
  match a, b with
  | [], [] => true
  | x :: a', y :: b' => Ascii.eqb x y && str_eqb a' b'
  | _, _ => false
  end.

(** [x in xs] for a list of strings *)
Definition str_in (x : str) (xs : list str) : bool := existsb (str_eqb x) xs.

(** ** The pattern [CAF_RE]

    The pattern is a sequence of fixed-width pieces between two runs of
    optional whitespace, so matching is deterministic: the greedy [\s*]
    cannot give a character back to [[A-Z]], and the three alternatives of
    IDENT start with different characters.  Each piece is a function from
    the remaining input to the matched text and the rest. *)

Definition matcher (A : Type) := str -> option (A * str).

Definition bind {A B} (m : matcher A) (k : A -> matcher B) : matcher B :=
  fun s => match m s with
           | Some (a, rest) => k a rest
           | None => None
           end.

Definition ret {A} (a : A) : matcher A := fun s => Some (a, s).

Notation "x <- m ;; k" := (bind m (fun x => k))
  (at level 61, m at next level, right associativity).

(** [c{n}] for a character class [c] *)
Definition class_n (p : ascii -> bool) (n : nat) : matcher str :=
  fun s =>
    let g := firstn n s in
    if (Nat.eqb (length g) n && forallb p g)%bool
    then Some (g, skipn n s) else None.

(** a literal, compared case-insensitively *)
Definition literal (l : str) : matcher str :=
  fun s =>
    let g := firstn (length l) s in
    if str_eqb (upper g) (upper l) then Some (g, skipn (length l) s) else None.

(** [a|b], ordered choice *)
Definition alt {A} (m1 m2 : matcher A) : matcher A :=
  fun s => match m1 s with Some r => Some r | None => m2 s end.

(** [\s*], greedy *)
Definition spaces : matcher unit := fun s => Some (tt, lstrip s).

(** [\s*$]: the rest of the input is whitespace *)
Definition spaces_end : matcher unit :=
  fun s => if forallb is_space s then Some (tt, []) else None.

(** The dictionary returned by [parse_caf]: the named groups and the key
    CAF_NORMALIZADO. *)
Record ParsedCode := mkParsed {
  UF : str;
  MES : str;
  ANO : str;
  COD1 : str;
  COD2 : str;
  IDENT : str;
  TAIL : str;
  CAF_NORMALIZADO : str
}.

Definition dot : str := ".".
Definition CAF : str := "CAF".
Definition stars : str := "**".
Definition XX : str := "XX".

(** [CAF_RE.match(s)], then [groupdict()] with the key CAF_NORMALIZADO
    set to [norm]. *)
Definition CAF_RE (norm : str) : matcher ParsedCode :=
  _ <- spaces ;;
  uf <- class_n is_letter 2 ;;
  mes <- class_n is_digit 2 ;;
  ano <- class_n is_digit 4 ;;
  _ <- literal dot ;;
  cod1 <- class_n is_digit 2 ;;
  _ <- literal dot ;;
  cod2 <- class_n is_digit 2 ;;
  ident <- alt (literal stars) (alt (literal XX) (class_n is_digit 2)) ;;
  tail <- class_n is_digit 5 ;;
  _ <- literal CAF ;;
  _ <- spaces_end ;;
  ret (mkParsed uf mes ano cod1 cod2 ident tail norm).

Definition CAF_RE_match (norm s : str) : option ParsedCode :=
  match CAF_RE norm s with
  | Some (d, _) => Some d
  | None => None
  end.

(** [caf.strip().upper().replace(" ", "")] *)
Definition normalize (caf : str) : str := remove_spaces (upper (strip caf)).

Definition parse_caf (caf : str) : option ParsedCode :=
  match caf with
  | [] => None
  | _ => let caf_n := normalize caf in CAF_RE_match caf_n caf_n
  end.

(** ** Integers and their text *)

Definition digit_val (c : ascii) : Z := Z.of_N (code c) - 48.

(** The digits of an [int] literal: decimal digits, with single underscores
    allowed between two digits.  [prev] tells whether the previous
    character was a digit. *)
Fixpoint int_digits (acc : Z) (prev : bool) (s : str) : option Z :=
  match s with
  | [] => if prev then Some acc else None
  | c :: s' =>
      if is_digit c then int_digits (10 * acc + digit_val c) true s'
      else if (Ascii.eqb c "_" && prev)%bool then int_digits acc false s'
      else None
  end.

(** [int(s)] for a string [s]: [None] stands for ValueError.  Surrounding
    whitespace is skipped and one sign is accepted.  The bound that recent
    versions of CPython put on the number of digits is not modelled. *)
Definition int_of_str (s : str) : option Z :=
  match strip s with
  | [] => None
  | c :: s' =>
      if Ascii.eqb c "-" then option_map Z.opp (int_digits 0 false s')
      else if Ascii.eqb c "+" then int_digits 0 false s'
      else int_digits 0 false (c :: s')
  end.

(** [str(n)] for an integer [n] *)
Definition str_of_Z (n : Z) : str :=
  list_ascii_of_string (NilZero.string_of_int (Z.to_int n)).

(** [f"{n:02d}"]: at least two characters, padded with a zero on the left
    (a sign counts for one character, so only 0..9 are padded). *)
Definition fmt_02d (n : Z) : str :=
  let s := str_of_Z n in
  if (length s <? 2)%nat then "0"%char :: s else s.

(** ** Exceptions *)

(** The exceptions of the module, each with its message; [OtherError] is
    any other subclass of [Exception] (a body that is not JSON, a header
    that is not a number). *)
Inductive exn :=
| FileNotFoundError (msg : str)
| IndexError (msg : str)
| ValueError (msg : str)
| AttributeError (msg : str)
| OtherError (msg : str).

(** [str(e)] *)
Definition exn_msg (e : exn) : str :=
  match e with
  | FileNotFoundError m | IndexError m | ValueError m
  | AttributeError m | OtherError m => m
  end.

Inductive result (A : Type) :=
| Ok (a : A)
| Raise (e : exn).
Arguments Ok {A} a.
Arguments Raise {A} e.

Definition rbind {A B} (m : result A) (k : A -> result B) : result B :=
  match m with
  | Ok a => k a
  | Raise e => Raise e
  end.

Notation "'let*' x ':=' m 'in' k" := (rbind m (fun x => k))
  (at level 10, x pattern, m at level 100, k at level 200).

(** ** The spreadsheet *)

(** The value of a cell as [openpyxl] gives it with [data_only=True].  A
    float is kept as what [int] makes of it (its truncation, [None] for
    nan and the infinities); its text always holds a point, an exponent,
    [inf] or [nan], so [int(str(x))] raises ValueError for every float.
    [COther] is a date, a time or another object: [int] raises TypeError
    on it and its text is no integer literal. *)
Inductive cell :=
| CNone
| CBool (b : bool)
| CInt (n : Z)
| CFloat (trunc : option Z)
| CStr (s : str)
| COther.

(** The rows of the active worksheet, as tuples of cell values. *)
Definition worksheet := list (list cell).

(** The file at the path PLANILHA: its sheet, when it exists. *)
Record planilha := mkPlanilha {
  planilha_path : str;
  planilha_sheet : option worksheet
}.

(** [int(v)] under [try ... except Exception] *)
Definition int_of_cell (v : cell) : option Z :=
  match v with
  | CNone => None
  | CBool b => Some (if b then 1 else 0)
  | CInt n => Some n
  | CFloat t => t
  | CStr s => int_of_str s
  | COther => None
  end.

(** [mes_ok] *)
Definition mes_ok (mes_val : cell) : option str :=
  match mes_val with
  | CNone => None
  | _ => option_map fmt_02d (int_of_cell mes_val)
  end.

(** [ano_ok] *)
Definition ano_ok (ano_val : cell) : option str :=
  match ano_val with
  | CNone => None
  | _ => option_map str_of_Z (int_of_cell ano_val)
  end.

(** [int(str(ident_val).strip())] under [try ... except Exception] *)
Definition ident_int (ident_val : cell) : option Z :=
  match ident_val with
  | CNone => int_of_str (strip "None")
  | CBool b => int_of_str (strip (if b then "True" else "False"))
  | CInt n => int_of_str (strip (str_of_Z n))
  | CStr s => int_of_str (strip s)
  | CFloat _ | COther => None
  end.

(** [mes_ok == mes]: [None] is equal to no string *)
Definition opt_str_eqb (o : option str) (s : str) : bool :=
  match o with
  | Some x => str_eqb x s
  | None => false
  end.

(** [row[i]] on a tuple *)
Definition tuple_get (row : list cell) (i : nat) : result cell :=
  match nth_error row i with
  | Some v => Ok v
  | None => Raise (IndexError "tuple index out of range")
  end.

(** The state of the loop: the set [vistos] and the list [ids]. *)
Definition scan_state := (list str * list str)%type.

(** The body of the [for] loop on one row. *)
Definition row_step (mes ano : str) (st : scan_state) (row : list cell)
  : result scan_state :=
  let* mes_val := tuple_get row 1 in
  let* ano_val := tuple_get row 2 in
  let ident_val := if (6 <=? length row)%nat then nth 5 row CNone else CNone in
  if (opt_str_eqb (mes_ok mes_val) mes && opt_str_eqb (ano_ok ano_val) ano)%bool
  then
    match ident_int ident_val with
    | None => Ok st
    | Some n =>
        if ((0 <=? n) && (n <=? 99))%bool
        then
          let cod := fmt_02d n in
          let '(vistos, ids) := st in
          if negb (str_in cod vistos)
          then Ok (cod :: vistos, ids ++ [cod])
          else Ok st
        else Ok st
    end
  else Ok st.

Fixpoint scan (mes ano : str) (st : scan_state) (rows : worksheet)
  : result scan_state :=
  match rows with
  | [] => Ok st
  | row :: rows' =>
      let* st' := row_step mes ano st row in
      scan mes ano st' rows'
  end.

(** The keys [int(x)] of [ids.sort(key=lambda x: int(x))], computed before
    any element moves. *)
Fixpoint sort_keys (ids : list str) : result (list (Z * str)) :=
  match ids with
  | [] => Ok []
  | x :: ids' =>
      match int_of_str x with
      | None =>
          Raise (ValueError
                   ("invalid literal for int() with base 10: '" ++ x ++ "'"))
      | Some k => let* t := sort_keys ids' in Ok ((k, x) :: t)
      end
  end.

Fixpoint insert_key (p : Z * str) (l : list (Z * str)) : list (Z * str) :=
  match l with
  | [] => [p]
  | q :: l' => if fst p <=? fst q then p :: l else q :: insert_key p l'
  end.

(** A stable sort on the keys, as [list.sort] is. *)
Fixpoint sort_keyed (l : list (Z * str)) : list (Z * str) :=
  match l with
  | [] => []
  | p :: l' => insert_key p (sort_keyed l')
  end.

Definition sort_by_int (ids : list str) : result (list str) :=
  let* keyed := sort_keys ids in
  Ok (map snd (sort_keyed keyed)).

(** [iter_rows(min_row=2)]: the rows after the header *)
Definition data_rows (ws : worksheet) : worksheet := tl ws.

Definition ler_identificadores_unicos_ordenados
  (f : planilha) (mes ano : str) : result (list str) :=
  match planilha_sheet f with
  | None =>
      Raise (FileNotFoundError
               ("Planilha não encontrada: " ++ planilha_path f))
  | Some ws =>
      let* st := scan mes ano ([], []) (data_rows ws) in
      sort_by_int (snd st)
  end.

(** ** Expansion *)

(** [re.fullmatch(r"\d{2}", s)] *)
Definition fullmatch_2_digits (s : str) : bool :=
  match class_n is_digit 2 s with
  | Some (_, []) => true
  | _ => false
  end.

Definition gerar_combos (parsed : ParsedCode) (ids_lista : list str)
  : list str :=
  let prefixo :=
    UF parsed ++ MES parsed ++ ANO parsed ++ dot ++ COD1 parsed ++ dot
      ++ COD2 parsed in
  let tail := TAIL parsed ++ CAF in
  let ident := IDENT parsed in
  if fullmatch_2_digits ident
  then if str_in ident ids_lista then [prefixo ++ ident ++ tail] else []
  else map (fun cod => prefixo ++ cod ++ tail) ids_lista.

(** ** The request handler *)

(** A value decoded by [json.loads].  A float is kept as whether it is
    zero, which is all that [or] looks at. *)
#[warnings="-register-all"]
Inductive json :=
| JNull
| JBool (b : bool)
| JInt (n : Z)
| JFloat (is_zero : bool)
| JStr (s : str)
| JList (l : list json)
| JDict (items : list (str * json)).

(** The truth value of a decoded value *)
Definition truthy (v : json) : bool :=
  match v with
  | JNull => false
  | JBool b => b
  | JInt n => negb (n =? 0)
  | JFloat z => negb z
  | JStr s => negb (str_eqb s [])
  | JList l => match l with [] => false | _ => true end
  | JDict d => match d with [] => false | _ => true end
  end.

Definition type_name (v : json) : str :=
  match v with
  | JNull => "NoneType"
  | JBool _ => "bool"
  | JInt _ => "int"
  | JFloat _ => "float"
  | JStr _ => "str"
  | JList _ => "list"
  | JDict _ => "dict"
  end.

Definition no_attribute (v : json) (attr : str) : exn :=
  AttributeError
    ("'" ++ type_name v ++ "' object has no attribute '" ++ attr ++ "'").

(** [d.get(key)] on the items of a dict *)
Fixpoint dict_get (key : str) (items : list (str * json)) : json :=
  match items with
  | [] => JNull
  | (k, v) :: items' => if str_eqb k key then v else dict_get key items'
  end.

(** [data.get("caf") or ""]: the code submitted with the request *)
Definition submitted (data : json) : result json :=
  match data with
  | JDict items =>
      let v := dict_get "caf" items in
      Ok (if truthy v then v else JStr [])
  | _ => Raise (no_attribute data "get")
  end.

(** [v.strip()] *)
Definition strip_method (v : json) : result str :=
  match v with
  | JStr s => Ok (strip s)
  | _ => Raise (no_attribute v "strip")
  end.

Definition caf_in (data : json) : result str :=
  let* v := submitted data in
  strip_method v.

(** The body of a response: the dict given to [_send_json]. *)
Inductive payload :=
| Erro (msg : str)
| Combos (combos : list str).

Record response := mkResponse {
  status : Z;
  body : payload
}.

Definition msg_formato_invalido : str :=
  "Formato inválido. Ex.: BA032025.01.00**39367CAF".

Definition msg_nenhum_identificador (mes ano : str) : str :=
  "Nenhum identificador encontrado para " ++ mes ++ "/" ++ ano ++ ".".

Definition msg_ident_ausente : str :=
  "IDENT já numérico e não presente no gabarito para este mês/ano.".

(** The [try] block of [do_POST].  The request is given as the outcome of
    reading the body and decoding it ([Content-Length], [rfile.read],
    [decode], [json.loads]): the decoded value, or the exception raised
    on the way. *)
Definition do_POST_try (f : planilha) (request : result json)
  : result response :=
  let* data := request in
  let* caf := caf_in data in
  match parse_caf caf with
  | None => Ok (mkResponse 400 (Erro msg_formato_invalido))
  | Some parsed =>
      let mes := MES parsed in
      let ano := ANO parsed in
      let* ids := ler_identificadores_unicos_ordenados f mes ano in
      match ids with
      | [] => Ok (mkResponse 404 (Erro (msg_nenhum_identificador mes ano)))
      | _ =>
          match gerar_combos parsed ids with
          | [] => Ok (mkResponse 404 (Erro msg_ident_ausente))
          | combos => Ok (mkResponse 200 (Combos combos))
          end
      end
  end.

Definition do_POST (f : planilha) (request : result json) : response :=
  match do_POST_try f request with
  | Ok r => r
  | Raise (FileNotFoundError m) => mkResponse 500 (Erro m)
  | Raise e => mkResponse 500 (Erro ("Erro interno: " ++ exn_msg e))
  end.

(** ** The grammar of the specification

    The input code UFMMYYYY.CC.DD{II|**|XX}NNNNNCAF in its clean form:
    upper case, no whitespace.  [coded slot] is the set of such strings
    whose identifier slot satisfies [slot]. *)

Definition digits (n : nat) (s : str) : Prop :=
  length s = n /\ forallb is_digit s = true.

Definition upper_letters (n : nat) (s : str) : Prop :=
  length s = n /\ forallb is_upper s = true.

Inductive ident_slot : str -> Prop :=
| slot_stars : ident_slot stars
| slot_XX : ident_slot XX
| slot_digits d : digits 2 d -> ident_slot d.

Inductive coded (slot : str -> Prop) : str -> Prop :=
| coded_intro uf mm yyyy cc dd ii nnnnn :
    upper_letters 2 uf -> digits 2 mm -> digits 4 yyyy ->
    digits 2 cc -> digits 2 dd -> slot ii -> digits 5 nnnnn ->
    coded slot
      (uf ++ mm ++ yyyy ++ dot ++ cc ++ dot ++ dd ++ ii ++ nnnnn ++ CAF).

(** a clean input code *)
Definition input_code : str -> Prop := coded ident_slot.


(** [variant c s]: [s] is obtained from [c] by changing the case of
    characters, inserting space characters anywhere, and putting whitespace
    characters in front or at the end. *)
Inductive variant (c : str) : str -> Prop :=
| variant_same : variant c c
| variant_case a x y b :
    variant c (a ++ x :: b) -> upper_char y = upper_char x ->
    variant c (a ++ y :: b)
| variant_space a b :
    variant c (a ++ b) -> variant c (a ++ space :: b)
| variant_front w s :
    variant c s -> is_space w = true -> variant c (w :: s)
| variant_back w s :
    variant c s -> is_space w = true -> variant c (s ++ [w]).

(** The rows the loop keeps for a month and year, and the identifier it
    reads in a row. *)
Definition row_matches (mes ano : str) (row : list cell) : bool :=
  (opt_str_eqb (mes_ok (nth 1 row CNone)) mes
   && opt_str_eqb (ano_ok (nth 2 row CNone)) ano)%bool.

Definition row_ident (row : list cell) : option Z :=
  match ident_int (nth 5 row CNone) with
  | Some n => if ((0 <=? n) && (n <=? 99))%bool then Some n else None
  | None => None
  end.

(** The identifier a row contributes for a month and year, if any. *)
Definition contributes (mes ano : str) (row : list cell) : option str :=
  if row_matches mes ano row then option_map fmt_02d (row_ident row)
  else None.

(** Every data row reaches the year column. *)
Definition has_month_year (ws : worksheet) : Prop :=
  Forall (fun row => (3 <= length row)%nat) (data_rows ws).

(** The integer value of an identifier string *)
Definition int_value (x : str) : Z :=
  match int_of_str x with
  | Some k => k
  | None => 0
  end.


(** [wide_variant c s]: as [variant], with any whitespace character inserted
    anywhere. *)
Inductive wide_variant (c : str) : str -> Prop :=
| wide_same : wide_variant c c
| wide_case a x y b :
    wide_variant c (a ++ x :: b) -> upper_char y = upper_char x ->
    wide_variant c (a ++ y :: b)
| wide_insert a w b :
    wide_variant c (a ++ b) -> is_space w = true ->
    wide_variant c (a ++ w :: b).

(** ** Sample inputs *)

Definition tab : ascii := ascii_of_nat 9.

Definition code_ex : str := "BA032025.01.00**39367CAF".
Definition code_ex_lower : str := "ba032025.01.00**39367caf".
Definition code_ex_spaced : str := "  ba 032025.01.00**39367caf".
Definition code_ex_tab : str := "BA03" ++ tab :: "2025.01.00**39367CAF".
Definition code_ex_05 : str := "BA032025.01.000539367CAF".

Definition parsed_ex : ParsedCode :=
  mkParsed "BA" "03" "2025" "01" "00" "**" "39367" code_ex.

Definition parsed_ex_05 : ParsedCode :=
  mkParsed "BA" "03" "2025" "01" "00" "05" "39367" code_ex_05.

(** prefix+member+tail: the code of [parsed] with [m] in the identifier
    slot *)
Definition combo_of (parsed : ParsedCode) (m : str) : str :=
  UF parsed ++ MES parsed ++ ANO parsed ++ dot ++ COD1 parsed ++ dot
    ++ COD2 parsed ++ m ++ TAIL parsed ++ CAF.

(** The state of the loop after a row that raises nothing. *)
Definition add_contribution (st : scan_state) (o : option str) : scan_state :=
  match o with
  | Some cod =>
      let '(vistos, ids) := st in
      if str_in cod vistos then st else (cod :: vistos, ids ++ [cod])
  | None => st
  end.

Definition collect (mes ano : str) (rows : worksheet) (st : scan_state)
  : scan_state :=
  fold_left (fun st row => add_contribution st (contributes mes ano row))
    rows st.

Definition wide_enough (row : list cell) : bool := (3 <=? length row)%nat.

(** An identifier string as the loop makes it *)
Definition is_cod (x : str) : Prop := exists n, 0 <= n <= 99 /\ x = fmt_02d n.

Definition key_le (p q : Z * str) : Prop := fst p <= fst q.

(** [int(x)] paired with [x] *)
Definition keyed (x : str) : Z * str := (int_value x, x).

(** The text of [k] under [f"{k:02d}"] reads back as [k] and is two
    digits. *)
Definition cod_ok (k : nat) : bool :=
  let n := Z.of_nat k in
  (match int_of_str (fmt_02d n) with
   | Some m => m =? n
   | None => false
   end && fullmatch_2_digits (fmt_02d n))%bool.

Definition int_le (a b : str) : Prop := int_value a <= int_value b.

Definition int_lt (a b : str) : Prop := int_value a < int_value b.


(** A sheet with a header and six rows for 03/2025, whose identifiers are
    5, 12, 5, "bad", 130 and 7. *)
Definition row_of (m y i : cell) : list cell :=
  [CStr "BA"; m; y; CNone; CNone; i].

Definition sheet_ex : worksheet :=
  [CStr "UF"; CStr "MES"; CStr "ANO"; CNone; CNone; CStr "IDENT"]
    :: map (row_of (CInt 3) (CInt 2025))
         [CInt 5; CInt 12; CInt 5; CStr "bad"; CInt 130; CInt 7].

Definition path_ex : str := "/var/task/dados/GABARITO.xlsx".

Definition planilha_ex : planilha := mkPlanilha path_ex (Some sheet_ex).

Definition planilha_missing : planilha := mkPlanilha path_ex None.

(** A sheet of two columns: its rows are tuples of two cells. *)
Definition sheet_narrow : worksheet :=
  [[CStr "UF"; CStr "MES"]; [CStr "BA"; CInt 3]; [CStr "BA"; CInt 4]].

Definition planilha_narrow : planilha := mkPlanilha path_ex (Some sheet_narrow).

Definition ids_ex : list str := ["05" : str; "07" : str; "12" : str].

(** The request whose body is the object with the one key caf. *)
Definition post (caf : str) : result json :=
  Ok (JDict [("caf" : str, JStr caf)]).




(** The texts of 0..99 under [f"{n:02d}"] *)
Definition all_cods : list str :=
  map (fun k => fmt_02d (Z.of_nat k)) (seq 0 100).


Definition code_ex_0999 : str := "BA030999.01.00**39367CAF".

Definition parsed_ex_0999 : ParsedCode :=
  mkParsed "BA" "03" "0999" "01" "00" "**" "39367" code_ex_0999.

(** A sheet with one data row for the month 3 of the year 999. *)
Definition sheet_999 : worksheet :=
  [[CStr "UF"; CStr "MES"; CStr "ANO"];
   row_of (CInt 3) (CInt 999) (CInt 5)].

Definition planilha_999 : planilha := mkPlanilha path_ex (Some sheet_999).

(** The five ways a request ends. *)
Inductive outcome (f : planilha) (request : result json) : response -> Prop :=
| outcome_error msg :
    outcome f request (mkResponse 500 (Erro msg))
| outcome_invalid data c :
    request = Ok data -> submitted data = Ok (JStr c) ->
    parse_caf c = None ->
    outcome f request (mkResponse 400 (Erro msg_formato_invalido))
| outcome_none data c p :
    request = Ok data -> submitted data = Ok (JStr c) ->
    parse_caf c = Some p ->
    ler_identificadores_unicos_ordenados f (MES p) (ANO p) = Ok [] ->
    outcome f request
      (mkResponse 404 (Erro (msg_nenhum_identificador (MES p) (ANO p))))
| outcome_absent data c p ids :
    request = Ok data -> submitted data = Ok (JStr c) ->
    parse_caf c = Some p ->
    ler_identificadores_unicos_ordenados f (MES p) (ANO p) = Ok ids ->
    ids <> [] -> gerar_combos p ids = [] ->
    outcome f request (mkResponse 404 (Erro msg_ident_ausente))
| outcome_combos data c p ids :
    request = Ok data -> submitted data = Ok (JStr c) ->
    parse_caf c = Some p ->
    ler_identificadores_unicos_ordenados f (MES p) (ANO p) = Ok ids ->
    ids <> [] -> gerar_combos p ids <> [] ->
    outcome f request (mkResponse 200 (Combos (gerar_combos p ids))).

(** ** Responses on the wire

    [_send_json], [do_OPTIONS] and the [do_GET] of [api/ping.py].  The
    text of a body is kept as its UTF-8 bytes (the literals of this file
    are written so), which makes [encode("utf-8")] the identity and
    [len(body)] the length of the list. *)

Definition dquote : ascii := ascii_of_nat 34.
Definition backslash : ascii := ascii_of_nat 92.

(** one digit of [format(i, "04x")] *)
Definition hex_digit (n : N) : ascii :=
  if (n <? 10)%N then ascii_of_N (48 + n) else ascii_of_N (87 + n).

(** The text of one character in a JSON string, as [json.dumps] writes it
    with [ensure_ascii=False]: the quote, the backslash and the control
    characters below 0x20 are escaped, every other character is kept. *)
Definition escape_char (c : ascii) : str :=
  if Ascii.eqb c dquote then [backslash; dquote]
  else if Ascii.eqb c backslash then [backslash; backslash]
  else if (code c =? 10)%N then [backslash; "n"%char]
  else if (code c =? 13)%N then [backslash; "r"%char]
  else if (code c =? 9)%N then [backslash; "t"%char]
  else if (code c =? 8)%N then [backslash; "b"%char]
  else if (code c =? 12)%N then [backslash; "f"%char]
  else if (code c <? 32)%N
       then [backslash; "u"%char; "0"%char; "0"%char;
             hex_digit (code c / 16); hex_digit (code c mod 16)]
       else [c].

(** [json.dumps(s)] for a string *)
Definition dumps_str (s : str) : str :=
  dquote :: flat_map escape_char s ++ [dquote].

(** [sep.join(parts)] *)
Fixpoint join (sep : str) (parts : list str) : str :=
  match parts with
  | [] => []
  | x :: parts' =>
      match parts' with
      | [] => x
      | _ => x ++ sep ++ join sep parts'
      end
  end.

(** The values that the handlers put in a body: a string, a boolean, a
    list of strings. *)
Inductive jvalue :=
| VStr (s : str)
| VBool (b : bool)
| VList (l : list str).

Definition dumps_value (v : jvalue) : str :=
  match v with
  | VStr s => dumps_str s
  | VBool b => if b then "true" else "false"
  | VList l => "[" ++ join ", " (map dumps_str l) ++ "]"
  end.

(** [json.dumps(d)] for a dict, with the default separators *)
Definition dumps_dict (d : list (str * jvalue)) : str :=
  "{" ++ join ", " (map (fun kv => dumps_str (fst kv) ++ ": "
                                     ++ dumps_value (snd kv)) d) ++ "}".

(** What a handler writes: the status line, the headers that the code
    sends, in order, and the body. *)
Record http_response := mkHttp {
  http_status : Z;
  http_headers : list (str * str);
  http_body : str
}.

Definition cors_headers : list (str * str) :=
  [("Access-Control-Allow-Origin" : str, "*" : str);
   ("Access-Control-Allow-Headers" : str, "Content-Type" : str);
   ("Access-Control-Allow-Methods" : str, "POST, OPTIONS" : str)].

Definition content_type_json : str * str :=
  ("Content-Type" : str, "application/json; charset=utf-8" : str).

Definition _send_json (status : Z) (payload : list (str * jvalue))
  : http_response :=
  let body := dumps_dict payload in
  mkHttp status
    (content_type_json :: cors_headers
       ++ [("Content-Length" : str, str_of_Z (Z.of_nat (length body)))])
    body.

Definition do_OPTIONS : http_response := mkHttp 204 cors_headers [].

(** [do_GET] of [api/ping.py]; its payload is ASCII, for which the default
    [ensure_ascii=True] writes the same text. *)
Definition do_GET : http_response :=
  mkHttp 200 [content_type_json]
    (dumps_dict [("ok" : str, VBool true); ("msg" : str, VStr "pong")]).

(** The dict of a payload of [do_POST] *)
Definition payload_dict (b : payload) : list (str * jvalue) :=
  match b with
  | Erro msg => [("erro" : str, VStr msg)]
  | Combos combos => [("combos" : str, VList combos)]
  end.

(** [do_POST] with its calls of [_send_json] *)
Definition do_POST_http (f : planilha) (request : result json)
  : http_response :=
  let r := do_POST f request in
  _send_json (status r) (payload_dict (body r)).

(** [dict.get] on the headers *)
Fixpoint header (name : str) (hs : list (str * str)) : option str :=
  match hs with
  | [] => None
  | (k, v) :: hs' => if str_eqb k name then Some v else header name hs'
  end.

(** The value of a hexadecimal digit *)
Definition hex_val (c : ascii) : N :=
  if is_digit c then (code c - 48)%N else (code c - 87)%N.

(** The character at the front of an escaped text, and the rest; [None]
    at a quote. *)
Definition unescape_char (s : str) : option (ascii * str) :=
  match s with
  | [] => None
  | c :: r =>
      if Ascii.eqb c dquote then None
      else if Ascii.eqb c backslash then
        match r with
        | [] => None
        | e :: r' =>
            if Ascii.eqb e dquote then Some (dquote, r')
            else if Ascii.eqb e backslash then Some (backslash, r')
            else if Ascii.eqb e "n" then Some (ascii_of_nat 10, r')
            else if Ascii.eqb e "r" then Some (ascii_of_nat 13, r')
            else if Ascii.eqb e "t" then Some (ascii_of_nat 9, r')
            else if Ascii.eqb e "b" then Some (ascii_of_nat 8, r')
            else if Ascii.eqb e "f" then Some (ascii_of_nat 12, r')
            else match r' with
                 | _ :: _ :: h :: l :: r'' =>
                     Some (ascii_of_N (16 * hex_val h + hex_val l), r'')
                 | _ => None
                 end
        end
      else Some (c, r)
  end.

(** A character that is no control character *)
Definition printable (c : ascii) : bool := negb (code c <? 32)%N.

(** ** Auxiliary definitions *)

(** The characters of a decimal number, and the value that [int_digits]
    reads from them after [acc]. *)
Definition uint_chars (d : Decimal.uint) : str :=
  list_ascii_of_string (NilEmpty.string_of_uint d).

Fixpoint uint_acc (d : Decimal.uint) (acc : Z) : Z :=
  match d with
  | Decimal.Nil => acc
  | Decimal.D0 l => uint_acc l (10 * acc + 0)
  | Decimal.D1 l => uint_acc l (10 * acc + 1)
  | Decimal.D2 l => uint_acc l (10 * acc + 2)
  | Decimal.D3 l => uint_acc l (10 * acc + 3)
  | Decimal.D4 l => uint_acc l (10 * acc + 4)
  | Decimal.D5 l => uint_acc l (10 * acc + 5)
  | Decimal.D6 l => uint_acc l (10 * acc + 6)
  | Decimal.D7 l => uint_acc l (10 * acc + 7)
  | Decimal.D8 l => uint_acc l (10 * acc + 8)
  | Decimal.D9 l => uint_acc l (10 * acc + 9)
  end.

Definition all_ascii (P : ascii -> bool) : bool :=
  forallb (fun n => P (ascii_of_nat n)) (seq 0 256).

(** A character that [normalize] leaves as it is. *)
Definition clean_char (c : ascii) : bool :=
  (negb (is_space c) && Ascii.eqb (upper_char c) c)%bool.

(** The string does not start (end) with whitespace. *)
Definition starts_clean (s : str) : bool :=
  match s with
  | c :: _ => negb (is_space c)
  | [] => true
  end.

Definition ends_clean (s : str) : bool := starts_clean (rev s).

(** Every character is its own upper case. *)
Definition fixedb (s : str) : bool :=
  forallb (fun c => Ascii.eqb (upper_char c) c) s.

(** What a successful match of [CAF_RE] on [s] says of the groups. *)
Inductive matched (s : str) (p : ParsedCode) : Prop :=
| matched_intro ws1 caf ws2 :
    s = ws1 ++ UF p ++ MES p ++ ANO p ++ dot ++ COD1 p ++ dot ++ COD2 p
          ++ IDENT p ++ TAIL p ++ caf ++ ws2 ->
    forallb is_space ws1 = true ->
    forallb is_space ws2 = true ->
    upper caf = CAF ->
    length (UF p) = 2%nat -> forallb is_letter (UF p) = true ->
    digits 2 (MES p) -> digits 4 (ANO p) ->
    digits 2 (COD1 p) -> digits 2 (COD2 p) ->
    upper (IDENT p) = stars \/ upper (IDENT p) = XX \/ digits 2 (IDENT p) ->
    digits 5 (TAIL p) ->
    matched s p.

(** * Properties *)

(** ** Characters *)

Lemma all_ascii_spec (P : ascii -> bool) :
  all_ascii P = true -> forall c, P c = true.
Proof.
  unfold all_ascii. rewrite forallb_forall. intros H c.
  rewrite <- (ascii_nat_embedding c). apply H.
  apply in_seq. pose proof (nat_ascii_bounded c). lia.
Qed.

(** A property of one character that is a boolean is checked on the 256
    characters. *)
Ltac check_all_ascii c :=
  revert c; apply all_ascii_spec; vm_compute; reflexivity.

Lemma space_upper c : is_space (upper_char c) = is_space c.
Proof. apply Bool.eqb_prop. check_all_ascii c. Qed.

Lemma upper_char_idem c : upper_char (upper_char c) = upper_char c.
Proof. apply Ascii.eqb_eq. check_all_ascii c. Qed.

Lemma upper_char_is_space_char c :
  Ascii.eqb (upper_char c) space = Ascii.eqb c space.
Proof. apply Bool.eqb_prop. check_all_ascii c. Qed.

Lemma space_char_is_space c : Ascii.eqb c space = true -> is_space c = true.
Proof.
  assert (H : implb (Ascii.eqb c space) (is_space c) = true)
    by check_all_ascii c.
  intros E. rewrite E in H. exact H.
Qed.

Lemma clean_char_spec c :
  clean_char c = true <-> is_space c = false /\ upper_char c = c.
Proof.
  unfold clean_char. rewrite andb_true_iff, negb_true_iff, Ascii.eqb_eq.
  tauto.
Qed.

Lemma digit_clean c : is_digit c = true -> clean_char c = true.
Proof.
  assert (H : implb (is_digit c) (clean_char c) = true) by check_all_ascii c.
  intros E. rewrite E in H. exact H.
Qed.

Lemma upper_clean c : is_upper c = true -> clean_char c = true.
Proof.
  assert (H : implb (is_upper c) (clean_char c) = true) by check_all_ascii c.
  intros E. rewrite E in H. exact H.
Qed.

Lemma upper_is_letter c : is_upper c = true -> is_letter c = true.
Proof. unfold is_letter. intros ->. reflexivity. Qed.


Lemma letter_fixed_is_upper c :
  is_letter c = true -> upper_char c = c -> is_upper c = true.
Proof.
  assert (H : implb (is_letter c && Ascii.eqb (upper_char c) c) (is_upper c)
              = true) by check_all_ascii c.
  intros E1 E2. apply Ascii.eqb_eq in E2. rewrite E1, E2 in H. exact H.
Qed.

Lemma digit_upper c : is_digit c = true -> upper_char c = c.
Proof. intros H. apply digit_clean, clean_char_spec in H. tauto. Qed.

Lemma digit_not_space c : is_digit c = true -> is_space c = false.
Proof. intros H. apply digit_clean, clean_char_spec in H. tauto. Qed.

(** ** Strings *)

Lemma str_eqb_eq a b : str_eqb a b = true <-> a = b.
Proof.
  revert b. induction a as [|x a IH]; intros [|y b]; simpl;
    try (split; [discriminate | congruence]); try tauto.
  rewrite andb_true_iff, Ascii.eqb_eq, IH. split.
  - intros [-> ->]. reflexivity.
  - intros [= -> ->]. tauto.
Qed.

Lemma str_eqb_refl a : str_eqb a a = true.
Proof. now apply str_eqb_eq. Qed.

Lemma str_eqb_neq a b : str_eqb a b = false <-> a <> b.
Proof.
  rewrite <- str_eqb_eq. destruct (str_eqb a b); split; congruence.
Qed.

Lemma str_in_In x xs : str_in x xs = true <-> In x xs.
Proof.
  unfold str_in. rewrite existsb_exists. split.
  - intros [y [Hy E]]. apply str_eqb_eq in E. now subst.
  - intros H. exists x. split; [assumption | apply str_eqb_refl].
Qed.

Lemma str_in_not_In x xs : str_in x xs = false <-> ~ In x xs.
Proof.
  rewrite <- str_in_In. destruct (str_in x xs); split; congruence.
Qed.

(** ** [strip] *)

Lemma lstrip_starts_clean s : starts_clean (lstrip s) = true.
Proof.
  induction s as [|c s IH]; simpl; [reflexivity|].
  destruct (is_space c) eqn:E; [assumption|]. simpl. now rewrite E.
Qed.

Lemma lstrip_id s : starts_clean s = true -> lstrip s = s.
Proof.
  destruct s as [|c s]; simpl; [reflexivity|].
  intros H. apply negb_true_iff in H. now rewrite H.
Qed.

Lemma lstrip_all_space a : forallb is_space a = true -> lstrip a = [].
Proof.
  induction a as [|c a IH]; simpl; [reflexivity|].
  intros H. apply andb_true_iff in H as [-> H]. auto.
Qed.

Lemma lstrip_app a b :
  lstrip (a ++ b) = if forallb is_space a then lstrip b else lstrip a ++ b.
Proof.
  induction a as [|c a IH]; simpl; [reflexivity|].
  destruct (is_space c); simpl; [assumption | reflexivity].
Qed.

Lemma lstrip_split s :
  exists ws, s = ws ++ lstrip s /\ forallb is_space ws = true.
Proof.
  induction s as [|c s [ws [E H]]]; simpl.
  - exists []. split; reflexivity.
  - destruct (is_space c) eqn:Ec.
    + exists (c :: ws). simpl. rewrite Ec, H. split; [congruence | reflexivity].
    + exists []. split; reflexivity.
Qed.

Lemma starts_clean_app a b :
  a <> [] -> starts_clean (a ++ b) = starts_clean a.
Proof. destruct a; [congruence | reflexivity]. Qed.

Lemma lstrip_ends_clean s :
  ends_clean s = true -> ends_clean (lstrip s) = true.
Proof.
  unfold ends_clean. intros H.
  destruct (lstrip_split s) as [ws [E _]].
  destruct (lstrip s) as [|c t] eqn:El; [reflexivity|].
  rewrite E, rev_app_distr, starts_clean_app in H; [assumption|].
  intros C. apply (f_equal (@length _)) in C.
  rewrite length_rev in C. discriminate.
Qed.

Lemma rev_rstrip s : rev (rstrip s) = lstrip (rev s).
Proof. unfold rstrip. apply rev_involutive. Qed.

Lemma rstrip_ends_clean s : ends_clean (rstrip s) = true.
Proof. unfold ends_clean. rewrite rev_rstrip. apply lstrip_starts_clean. Qed.

Lemma rstrip_id s : ends_clean s = true -> rstrip s = s.
Proof.
  unfold ends_clean, rstrip. intros H.
  rewrite lstrip_id by assumption. apply rev_involutive.
Qed.

Lemma strip_starts_clean s : starts_clean (strip s) = true.
Proof. apply lstrip_starts_clean. Qed.

Lemma strip_ends_clean s : ends_clean (strip s) = true.
Proof. apply lstrip_ends_clean, rstrip_ends_clean. Qed.

Lemma strip_id s :
  starts_clean s = true -> ends_clean s = true -> strip s = s.
Proof.
  intros H1 H2. unfold strip. rewrite rstrip_id by assumption.
  now apply lstrip_id.
Qed.

Lemma strip_no_space s :
  forallb (fun c => negb (is_space c)) s = true -> strip s = s.
Proof.
  intros H. rewrite forallb_forall in H. apply strip_id.
  - destruct s as [|c s]; [reflexivity|]. apply H. now left.
  - unfold ends_clean. destruct (rev s) as [|c t] eqn:E; [reflexivity|].
    apply H, in_rev. rewrite E. now left.
Qed.

Lemma strip_idem s : strip (strip s) = strip s.
Proof. apply strip_id; [apply strip_starts_clean | apply strip_ends_clean]. Qed.

Lemma strip_all_space s : forallb is_space s = true -> strip s = [].
Proof.
  intros H. unfold strip, rstrip.
  rewrite (lstrip_all_space (rev s)); [reflexivity|].
  rewrite forallb_forall in *. intros x Hx. apply H. now apply in_rev.
Qed.

Lemma strip_back w s : is_space w = true -> strip (s ++ [w]) = strip s.
Proof.
  intros H. unfold strip, rstrip. rewrite rev_app_distr. simpl.
  now rewrite H.
Qed.

Lemma strip_front w s : is_space w = true -> strip (w :: s) = strip s.
Proof.
  intros H. unfold strip at 1. unfold rstrip. simpl rev.
  rewrite lstrip_app. destruct (forallb is_space (rev s)) eqn:E.
  - simpl. rewrite H. simpl. symmetry. apply strip_all_space.
    rewrite forallb_forall in *. intros x Hx. apply E. now apply in_rev in Hx.
  - rewrite rev_app_distr. simpl. rewrite H. reflexivity.
Qed.

Lemma upper_lstrip s : upper (lstrip s) = lstrip (upper s).
Proof.
  induction s as [|c s IH]; simpl; [reflexivity|].
  rewrite space_upper. destruct (is_space c); [assumption | reflexivity].
Qed.

Lemma upper_strip s : upper (strip s) = strip (upper s).
Proof.
  unfold strip, rstrip, upper.
  rewrite <- !map_rev. fold (upper (rev s)). rewrite <- upper_lstrip.
  unfold upper. rewrite <- map_rev. apply upper_lstrip.
Qed.

Lemma remove_spaces_lstrip s :
  remove_spaces (lstrip s) = lstrip (remove_spaces s).
Proof.
  induction s as [|c s IH]; simpl; [reflexivity|].
  destruct (Ascii.eqb c space) eqn:E; simpl.
  - rewrite (space_char_is_space c E). assumption.
  - destruct (is_space c); [assumption|]. simpl. now rewrite E.
Qed.

Lemma remove_spaces_strip s :
  remove_spaces (strip s) = strip (remove_spaces s).
Proof.
  unfold strip, rstrip. rewrite remove_spaces_lstrip. f_equal.
  unfold remove_spaces at 1. rewrite filter_rev.
  fold (remove_spaces (lstrip (rev s))). rewrite remove_spaces_lstrip.
  unfold remove_spaces. now rewrite filter_rev.
Qed.

(** [normalize] with the stripping done last *)
Lemma normalize_alt s : normalize s = strip (remove_spaces (upper s)).
Proof.
  unfold normalize. now rewrite upper_strip, remove_spaces_strip.
Qed.

(** ** The pieces of the pattern *)

Lemma class_n_inv p n s g r :
  class_n p n s = Some (g, r) ->
  s = g ++ r /\ length g = n /\ forallb p g = true.
Proof.
  unfold class_n. destruct (_ && _)%bool eqn:E; [|discriminate].
  intros [= <- <-]. apply andb_true_iff in E as [E1 E2].
  apply Nat.eqb_eq in E1. rewrite firstn_skipn. auto.
Qed.

Lemma class_n_app p n g r :
  length g = n -> forallb p g = true -> class_n p n (g ++ r) = Some (g, r).
Proof.
  intros <- H. unfold class_n.
  rewrite firstn_app, Nat.sub_diag, firstn_all, firstn_O, app_nil_r.
  rewrite Nat.eqb_refl, H. simpl.
  rewrite skipn_app, Nat.sub_diag, skipn_all. reflexivity.
Qed.

Lemma literal_inv l s g r :
  literal l s = Some (g, r) -> s = g ++ r /\ upper g = upper l.
Proof.
  unfold literal. destruct (str_eqb _ _) eqn:E; [|discriminate].
  intros [= <- <-]. apply str_eqb_eq in E. rewrite firstn_skipn. auto.
Qed.

Lemma literal_app l g r :
  length g = length l -> upper g = upper l -> literal l (g ++ r) = Some (g, r).
Proof.
  intros L H. unfold literal. rewrite <- L.
  rewrite firstn_app, Nat.sub_diag, firstn_all, firstn_O, app_nil_r.
  rewrite H, str_eqb_refl.
  rewrite skipn_app, Nat.sub_diag, skipn_all. reflexivity.
Qed.

Lemma literal_fail l g r :
  length g = length l -> upper g <> upper l -> literal l (g ++ r) = None.
Proof.
  intros L H. unfold literal. rewrite <- L.
  rewrite firstn_app, Nat.sub_diag, firstn_all, firstn_O, app_nil_r.
  apply str_eqb_neq in H. now rewrite H.
Qed.

Lemma upper_dot g : upper g = upper dot -> g = dot.
Proof.
  destruct g as [|x [|y g]]; try discriminate.
  assert (B : implb (Ascii.eqb (upper_char x) ".") (Ascii.eqb x ".") = true)
    by check_all_ascii x.
  intros [= H]. change (upper_char ".") with "."%char in H.
  apply Ascii.eqb_eq in H. rewrite H in B. apply Ascii.eqb_eq in B.
  now subst.
Qed.

Lemma CAF_RE_sound norm s p rest :
  CAF_RE norm s = Some (p, rest) ->
  matched s p /\ CAF_NORMALIZADO p = norm /\ rest = [].
Proof.
  unfold CAF_RE, bind, spaces, ret.
  destruct (lstrip_split s) as [ws1 [E0 W1]].
  destruct (class_n is_letter 2 _) as [[uf r1]|] eqn:M1; [|discriminate].
  destruct (class_n is_digit 2 r1) as [[mes r2]|] eqn:M2; [|discriminate].
  destruct (class_n is_digit 4 r2) as [[ano r3]|] eqn:M3; [|discriminate].
  destruct (literal dot r3) as [[d1 r4]|] eqn:M4; [|discriminate].
  destruct (class_n is_digit 2 r4) as [[cod1 r5]|] eqn:M5; [|discriminate].
  destruct (literal dot r5) as [[d2 r6]|] eqn:M6; [|discriminate].
  destruct (class_n is_digit 2 r6) as [[cod2 r7]|] eqn:M7; [|discriminate].
  destruct (alt _ _ r7) as [[ident r8]|] eqn:M8; [|discriminate].
  destruct (class_n is_digit 5 r8) as [[tail r9]|] eqn:M9; [|discriminate].
  destruct (literal CAF r9) as [[caf r10]|] eqn:M10; [|discriminate].
  unfold spaces_end.
  destruct (forallb is_space r10) eqn:W2; [|discriminate].
  intros [= <- <-].
  apply class_n_inv in M1 as (E1 & L1 & C1).
  apply class_n_inv in M2 as (E2 & L2 & C2).
  apply class_n_inv in M3 as (E3 & L3 & C3).
  apply literal_inv in M4 as (E4 & U4). apply upper_dot in U4.
  apply class_n_inv in M5 as (E5 & L5 & C5).
  apply literal_inv in M6 as (E6 & U6). apply upper_dot in U6.
  apply class_n_inv in M7 as (E7 & L7 & C7).
  apply class_n_inv in M9 as (E9 & L9 & C9).
  apply literal_inv in M10 as (E10 & U10).
  assert (I : r7 = ident ++ r8 /\
              (upper ident = stars \/ upper ident = XX \/ digits 2 ident)).
  { unfold alt in M8.
    destruct (literal stars r7) as [[g r]|] eqn:A1.
    - injection M8 as -> ->. apply literal_inv in A1 as [? ?]. auto.
    - destruct (literal XX r7) as [[g r]|] eqn:A2.
      + injection M8 as -> ->. apply literal_inv in A2 as [? ?]. auto.
      + apply class_n_inv in M8 as (? & ? & ?). unfold digits. auto. }
  destruct I as [E8 I].
  split; [|split; reflexivity].
  subst r1 r2 r3 r4 r5 r6 r7 r8 r9 d1 d2.
  apply (matched_intro _ _ ws1 caf r10); simpl; unfold digits; auto.
  rewrite E0 at 1. rewrite E1. reflexivity.
Qed.

(** ** The normalized string *)

Lemma forallb_imp (p q : ascii -> bool) s :
  (forall c, p c = true -> q c = true) ->
  forallb p s = true -> forallb q s = true.
Proof.
  intros H. rewrite !forallb_forall. auto.
Qed.

Lemma starts_clean_upper s : starts_clean (upper s) = starts_clean s.
Proof. destruct s; simpl; [reflexivity | now rewrite space_upper]. Qed.

Lemma starts_clean_remove_spaces s :
  starts_clean s = true -> starts_clean (remove_spaces s) = true.
Proof.
  destruct s as [|c s]; simpl; [reflexivity|]. intros H.
  destruct (Ascii.eqb c space) eqn:E; simpl; [|assumption].
  apply space_char_is_space in E. now rewrite E in H.
Qed.

Lemma normalize_starts_clean s : starts_clean (normalize s) = true.
Proof.
  unfold normalize. apply starts_clean_remove_spaces.
  rewrite starts_clean_upper. apply strip_starts_clean.
Qed.

Lemma normalize_ends_clean s : ends_clean (normalize s) = true.
Proof.
  unfold ends_clean, normalize, remove_spaces, upper.
  rewrite <- filter_rev, <- map_rev.
  apply starts_clean_remove_spaces. rewrite starts_clean_upper.
  apply strip_ends_clean.
Qed.

Lemma normalize_fixed s : fixedb (normalize s) = true.
Proof.
  unfold fixedb, normalize, remove_spaces, upper.
  apply forallb_forall. intros c Hc.
  apply filter_In in Hc as [Hc _]. apply in_map_iff in Hc as [x [<- _]].
  apply Ascii.eqb_eq, upper_char_idem.
Qed.

Lemma fixedb_upper s : fixedb s = true -> upper s = s.
Proof.
  unfold fixedb, upper. induction s as [|c s IH]; simpl; [reflexivity|].
  intros H. apply andb_true_iff in H as [H1 H2].
  apply Ascii.eqb_eq in H1. rewrite H1, IH by assumption. reflexivity.
Qed.

Lemma fixedb_app a b : fixedb (a ++ b) = (fixedb a && fixedb b)%bool.
Proof. apply forallb_app. Qed.

Lemma no_leading_space ws s :
  starts_clean (ws ++ s) = true -> forallb is_space ws = true -> ws = [].
Proof.
  destruct ws as [|c ws]; simpl; [reflexivity|].
  intros H1 H2. apply andb_true_iff in H2 as [H2 _].
  now rewrite H2 in H1.
Qed.

Lemma no_trailing_space s ws :
  ends_clean (s ++ ws) = true -> forallb is_space ws = true -> ws = [].
Proof.
  unfold ends_clean. rewrite rev_app_distr. intros H1 H2.
  apply no_leading_space in H1.
  - rewrite <- (rev_involutive ws), H1. reflexivity.
  - rewrite forallb_forall in *. intros x Hx. apply H2. now apply in_rev.
Qed.

Lemma letters_fixed_upper s :
  forallb is_letter s = true -> fixedb s = true -> forallb is_upper s = true.
Proof.
  unfold fixedb. induction s as [|c s IH]; simpl; [reflexivity|].
  intros H1 H2.
  apply andb_true_iff in H1 as [A1 A2]. apply andb_true_iff in H2 as [B1 B2].
  apply Ascii.eqb_eq in B1.
  rewrite (letter_fixed_is_upper c A1 B1). simpl. auto.
Qed.

(** The dictionary of a successful parse: the normalized string is the
    clean code made of the groups. *)
Lemma parse_caf_shape caf p :
  parse_caf caf = Some p ->
  CAF_NORMALIZADO p = normalize caf /\
  normalize caf =
    UF p ++ MES p ++ ANO p ++ dot ++ COD1 p ++ dot ++ COD2 p ++ IDENT p
      ++ TAIL p ++ CAF /\
  upper_letters 2 (UF p) /\ digits 2 (MES p) /\ digits 4 (ANO p) /\
  digits 2 (COD1 p) /\ digits 2 (COD2 p) /\ ident_slot (IDENT p) /\
  digits 5 (TAIL p).
Proof.
  unfold parse_caf, CAF_RE_match. destruct caf as [|c0 caf0]; [discriminate|].
  set (caf := c0 :: caf0). simpl.
  destruct (CAF_RE (normalize caf) (normalize caf)) as [[d rest]|] eqn:M;
    [|discriminate].
  intros [= ->]. apply CAF_RE_sound in M as (M & N & _).
  destruct M as [ws1 g ws2 E W1 W2 G Luf Cuf Hmes Hano Hc1 Hc2 Hid Htail].
  pose proof (normalize_starts_clean caf) as S1.
  pose proof (normalize_ends_clean caf) as S2.
  pose proof (normalize_fixed caf) as F.
  rewrite E in S1. apply no_leading_space in S1; [|assumption]. subst ws1.
  rewrite app_nil_l in E.
  assert (W : ws2 = []).
  { rewrite E in S2. rewrite !app_assoc in S2.
    now apply no_trailing_space in S2. }
  subst ws2. rewrite app_nil_r in E.
  rewrite E in F. rewrite !fixedb_app in F.
  repeat (apply andb_true_iff in F as [? F]).
  assert (g = CAF) by (rewrite <- G; symmetry; now apply fixedb_upper).
  subst g.
  assert (Huf : upper_letters 2 (UF p))
    by (split; [assumption | now apply letters_fixed_upper]).
  assert (Hslot : ident_slot (IDENT p)).
  { destruct Hid as [Hid | [Hid | Hid]].
    - rewrite fixedb_upper in Hid by assumption. rewrite Hid. constructor.
    - rewrite fixedb_upper in Hid by assumption. rewrite Hid. constructor.
    - now constructor. }
  tauto.
Qed.

(** ** Clean codes are accepted *)

Lemma digits_fixed n d : digits n d -> upper d = d.
Proof.
  intros [_ H]. apply fixedb_upper. unfold fixedb.
  apply (forallb_imp is_digit); [|assumption].
  intros c Hc. apply Ascii.eqb_eq. now apply digit_upper.
Qed.

Lemma digits_not_literal n d l :
  digits n d -> forallb is_digit (upper l) = false -> upper d <> upper l.
Proof.
  intros Hd Hl E. rewrite (digits_fixed n d Hd) in E. rewrite <- E in Hl.
  destruct Hd as [_ Hd]. congruence.
Qed.

Lemma alt_ident_slot ii r :
  ident_slot ii ->
  alt (literal stars) (alt (literal XX) (class_n is_digit 2)) (ii ++ r)
  = Some (ii, r).
Proof.
  intros [| | d Hd]; unfold alt.
  - now rewrite literal_app.
  - rewrite literal_fail; [|reflexivity|discriminate].
    now rewrite literal_app.
  - pose proof Hd as [L C].
    rewrite literal_fail;
      [|exact L | now apply (digits_not_literal 2)].
    rewrite literal_fail;
      [|exact L | now apply (digits_not_literal 2)].
    now apply class_n_app.
Qed.

Lemma upper_letters_starts_clean uf r :
  upper_letters 2 uf -> starts_clean (uf ++ r) = true.
Proof.
  intros [L C]. destruct uf as [|u uf]; [discriminate|]. simpl in *.
  apply andb_true_iff in C as [C _].
  apply upper_clean, clean_char_spec in C as [C _]. now rewrite C.
Qed.

Lemma CAF_RE_complete norm uf mm yyyy cc dd ii nnnnn ws :
  upper_letters 2 uf -> digits 2 mm -> digits 4 yyyy ->
  digits 2 cc -> digits 2 dd -> ident_slot ii -> digits 5 nnnnn ->
  forallb is_space ws = true ->
  CAF_RE norm
    (uf ++ mm ++ yyyy ++ dot ++ cc ++ dot ++ dd ++ ii ++ nnnnn ++ CAF ++ ws)
  = Some (mkParsed uf mm yyyy cc dd ii nnnnn norm, []).
Proof.
  intros Huf [L1 C1] [L2 C2] [L3 C3] [L4 C4] Hii [L5 C5] W.
  unfold CAF_RE, bind, spaces, ret.
  rewrite lstrip_id by now apply upper_letters_starts_clean.
  destruct Huf as [L0 C0].
  rewrite class_n_app;
    [| assumption | now apply (forallb_imp is_upper), C0; apply upper_is_letter].
  rewrite class_n_app by assumption.
  rewrite class_n_app by assumption.
  rewrite literal_app by reflexivity.
  rewrite class_n_app by assumption.
  rewrite literal_app by reflexivity.
  rewrite class_n_app by assumption.
  rewrite alt_ident_slot by assumption.
  rewrite class_n_app by assumption.
  rewrite literal_app by reflexivity.
  unfold spaces_end. now rewrite W.
Qed.

Lemma forallb_clean_normalize s :
  forallb clean_char s = true -> normalize s = s.
Proof.
  intros H.
  assert (Hs : forall c, In c s -> is_space c = false /\ upper_char c = c).
  { intros c Hc. apply clean_char_spec.
    rewrite forallb_forall in H. now apply H. }
  unfold normalize. rewrite strip_id.
  - rewrite fixedb_upper.
    + unfold remove_spaces. apply forallb_filter_id.
      apply forallb_forall. intros c Hc. apply negb_true_iff.
      destruct (Ascii.eqb c space) eqn:E; [|reflexivity].
      apply space_char_is_space in E. destruct (Hs c Hc). congruence.
    + apply forallb_forall. intros c Hc. apply Ascii.eqb_eq.
      now apply Hs.
  - destruct s as [|c s]; [reflexivity|]. simpl.
    destruct (Hs c) as [-> _]; [now left | reflexivity].
  - unfold ends_clean. destruct (rev s) as [|c t] eqn:E; [reflexivity|].
    simpl. destruct (Hs c) as [-> _]; [|reflexivity].
    apply in_rev. rewrite E. now left.
Qed.

Lemma digits_clean n d : digits n d -> forallb clean_char d = true.
Proof.
  intros [_ H]. apply (forallb_imp is_digit); [apply digit_clean | exact H].
Qed.

Lemma ident_slot_clean ii : ident_slot ii -> forallb clean_char ii = true.
Proof.
  intros [| | d Hd]; [reflexivity | reflexivity | now apply (digits_clean 2)].
Qed.

(** A clean input code parses to its own pieces. *)
Lemma parse_caf_coded uf mm yyyy cc dd ii nnnnn :
  upper_letters 2 uf -> digits 2 mm -> digits 4 yyyy ->
  digits 2 cc -> digits 2 dd -> ident_slot ii -> digits 5 nnnnn ->
  let c := uf ++ mm ++ yyyy ++ dot ++ cc ++ dot ++ dd ++ ii ++ nnnnn ++ CAF in
  parse_caf c = Some (mkParsed uf mm yyyy cc dd ii nnnnn c) /\
  forallb clean_char c = true.
Proof.
  intros Huf Hmm Hyy Hcc Hdd Hii Hn c.
  assert (Hc : forallb clean_char c = true).
  { unfold c. rewrite !forallb_app.
    rewrite (digits_clean _ _ Hmm), (digits_clean _ _ Hyy),
      (digits_clean _ _ Hcc), (digits_clean _ _ Hdd),
      (digits_clean _ _ Hn), (ident_slot_clean _ Hii).
    destruct Huf as [_ Huf].
    rewrite (forallb_imp is_upper clean_char uf upper_clean Huf).
    reflexivity. }
  split; [|assumption].
  unfold parse_caf. destruct c as [|c0 c'] eqn:Ec.
  - destruct Huf as [L _]. destruct uf; discriminate.
  - rewrite <- Ec. cbv zeta. rewrite forallb_clean_normalize by (now rewrite Ec).
    unfold CAF_RE_match, c.
    rewrite <- (app_nil_r CAF) at 1.
    rewrite (CAF_RE_complete _ uf mm yyyy cc dd ii nnnnn []) by auto.
    rewrite app_nil_r. reflexivity.
Qed.

(** ** The parser *)

Example parse_code_ex_lower : parse_caf code_ex_lower = Some parsed_ex.
Proof. vm_compute. reflexivity. Qed.

(** C4: when [parse_caf] succeeds, the groups put together as
    UF+MES+ANO+"."+COD1+"."+COD2+IDENT+TAIL+"CAF" are the string stored
    under CAF_NORMALIZADO, which is the input stripped, in upper case and
    without spaces. *)
Theorem parse_caf_reconstruct caf p :
  parse_caf caf = Some p ->
  UF p ++ MES p ++ ANO p ++ dot ++ COD1 p ++ dot ++ COD2 p ++ IDENT p
    ++ TAIL p ++ CAF = CAF_NORMALIZADO p
  /\ CAF_NORMALIZADO p = remove_spaces (upper (strip caf)).
Proof.
  intros H. apply parse_caf_shape in H as (N & E & _).
  split; [congruence | exact N].
Qed.

Lemma parse_caf_reconstruct_witness :
  parse_caf code_ex_spaced = Some parsed_ex /\
  (UF parsed_ex ++ MES parsed_ex ++ ANO parsed_ex ++ dot ++ COD1 parsed_ex
     ++ dot ++ COD2 parsed_ex ++ IDENT parsed_ex ++ TAIL parsed_ex ++ CAF
   = CAF_NORMALIZADO parsed_ex
   /\ CAF_NORMALIZADO parsed_ex
      = remove_spaces (upper (strip code_ex_spaced))).
Proof.
  split.
  - vm_compute. reflexivity.
  - apply (parse_caf_reconstruct code_ex_spaced parsed_ex).
    vm_compute. reflexivity.
Defined.

Lemma coded_length slot c :
  (forall x, slot x -> length x = 2%nat) -> coded slot c -> length c = 24%nat.
Proof.
  intros Hs [uf mm yyyy cc dd ii nnnnn [L0 _] [L1 _] [L2 _] [L3 _] [L4 _] Hi
               [L5 _]].
  rewrite !length_app, L0, L1, L2, L3, L4, L5, (Hs ii Hi). reflexivity.
Qed.

Lemma ident_slot_length ii : ident_slot ii -> length ii = 2%nat.
Proof. intros [| | d [L _]]; [reflexivity | reflexivity | exact L]. Qed.

Lemma input_code_length c : input_code c -> length c = 24%nat.
Proof. apply coded_length, ident_slot_length. Qed.





Lemma parse_caf_nonempty c s :
  parse_caf (c :: s)
  = CAF_RE_match (normalize (c :: s)) (normalize (c :: s)).
Proof. reflexivity. Qed.

Lemma upper_app a b : upper (a ++ b) = upper a ++ upper b.
Proof. apply map_app. Qed.

Lemma variant_normalize c s : variant c s -> normalize s = normalize c.
Proof.
  induction 1 as [|a x y b _ IH E|a b _ IH|w s _ IH W|w s _ IH W].
  - reflexivity.
  - rewrite <- IH, !normalize_alt, !upper_app. simpl. now rewrite E.
  - rewrite <- IH, !normalize_alt, !upper_app. unfold remove_spaces.
    rewrite !filter_app. reflexivity.
  - rewrite <- IH. unfold normalize. now rewrite strip_front.
  - rewrite <- IH. unfold normalize. now rewrite strip_back.
Qed.

Lemma input_code_parses c :
  input_code c -> exists p, parse_caf c = Some p /\ CAF_NORMALIZADO p = c
                            /\ normalize c = c.
Proof.
  intros [uf mm yyyy cc dd ii nnnnn H0 H1 H2 H3 H4 H5 H6].
  destruct (parse_caf_coded uf mm yyyy cc dd ii nnnnn) as [P C]; auto.
  cbv zeta in P, C. eexists. split; [exact P|]. split; [reflexivity|].
  now apply forallb_clean_normalize.
Qed.

(** C7 (amended): for a clean upper-case code of the grammar, [parse_caf]
    gives the same dictionary, CAF_NORMALIZADO being the clean code, on
    every variant made by changing the case of characters, inserting
    space characters anywhere, and putting whitespace characters in front
    or at the end. *)
Theorem parse_caf_variant c s :
  input_code c -> variant c s ->
  parse_caf s = parse_caf c
  /\ exists p, parse_caf c = Some p /\ CAF_NORMALIZADO p = c.
Proof.
  intros Hc V. destruct (input_code_parses c Hc) as (p & P & N & E).
  split; [|now exists p].
  apply variant_normalize in V. rewrite E in V.
  pose proof (input_code_length c Hc) as L.
  destruct c as [|c0 c']; [discriminate|].
  destruct s as [|s0 s']; [rewrite <- V in L; discriminate|].
  rewrite !parse_caf_nonempty. now rewrite V, E.
Qed.

Lemma input_code_ex : input_code code_ex.
Proof.
  apply (coded_intro ident_slot "BA" "03" "2025" "01" "00" "**" "39367");
    try (split; reflexivity).
  apply slot_stars.
Qed.

Lemma variant_code_ex_spaced : variant code_ex code_ex_spaced.
Proof.
  apply variant_front; [|reflexivity].
  apply variant_front; [|reflexivity].
  apply (variant_case _ [] "B" "b"); [|reflexivity].
  apply (variant_case _ ["B"%char] "A" "a"); [|reflexivity].
  apply (variant_space _ "BA").
  apply (variant_case _ "BA032025.01.00**39367" "C" "c"); [|reflexivity].
  apply (variant_case _ "BA032025.01.00**39367C" "A" "a"); [|reflexivity].
  apply (variant_case _ "BA032025.01.00**39367CA" "F" "f"); [|reflexivity].
  apply variant_same.
Qed.

Lemma parse_caf_variant_witness :
  input_code code_ex /\ variant code_ex code_ex_spaced /\
  (parse_caf code_ex_spaced = parse_caf code_ex
   /\ exists p, parse_caf code_ex = Some p /\ CAF_NORMALIZADO p = code_ex).
Proof.
  split; [exact input_code_ex|]. split; [exact variant_code_ex_spaced|].
  exact (parse_caf_variant code_ex code_ex_spaced input_code_ex
           variant_code_ex_spaced).
Defined.

(** C7 as stated fails: a tab inserted inside a clean code is whitespace,
    and the code no longer parses, while the clean code does. *)
Lemma parse_caf_tab_counterexample :
  input_code code_ex /\ wide_variant code_ex code_ex_tab
  /\ parse_caf code_ex_tab = None /\ parse_caf code_ex = Some parsed_ex.
Proof.
  split; [exact input_code_ex|]. split; [|split].
  - apply (wide_insert _ "BA03" tab); [apply wide_same | reflexivity].
  - vm_compute. reflexivity.
  - vm_compute. reflexivity.
Qed.

(** ** Expansion *)

Lemma fullmatch_2_digits_spec s : fullmatch_2_digits s = true <-> digits 2 s.
Proof.
  unfold fullmatch_2_digits, digits. split.
  - destruct (class_n is_digit 2 s) as [[g [|]]|] eqn:E; try discriminate.
    intros _. apply class_n_inv in E as (-> & L & C).
    now rewrite app_nil_r.
  - intros [L C]. rewrite <- (app_nil_r s).
    now rewrite class_n_app.
Qed.

Lemma combo_of_eq parsed m :
  (UF parsed ++ MES parsed ++ ANO parsed ++ dot ++ COD1 parsed ++ dot
     ++ COD2 parsed) ++ m ++ TAIL parsed ++ CAF
  = combo_of parsed m.
Proof. unfold combo_of. now rewrite <- !app_assoc. Qed.

Lemma gerar_combos_eq parsed ids :
  gerar_combos parsed ids
  = if fullmatch_2_digits (IDENT parsed)
    then if str_in (IDENT parsed) ids then [combo_of parsed (IDENT parsed)]
         else []
    else map (combo_of parsed) ids.
Proof.
  unfold gerar_combos. cbv zeta. rewrite combo_of_eq.
  destruct (fullmatch_2_digits (IDENT parsed)); [reflexivity|].
  apply map_ext. intros m. apply combo_of_eq.
Qed.

(** C2: when IDENT is a wildcard marker, "**" or "XX", [gerar_combos]
    returns one combo for each member of the list, in the order of the
    list: UF+MES+ANO+"."+COD1+"."+COD2, the member, TAIL+"CAF". *)
Theorem gerar_combos_wildcard parsed ids :
  IDENT parsed = stars \/ IDENT parsed = XX ->
  gerar_combos parsed ids
  = map (fun m =>
           UF parsed ++ MES parsed ++ ANO parsed ++ dot ++ COD1 parsed ++ dot
             ++ COD2 parsed ++ m ++ TAIL parsed ++ CAF) ids.
Proof.
  intros H. rewrite gerar_combos_eq.
  destruct H as [-> | ->]; reflexivity.
Qed.

Lemma gerar_combos_wildcard_witness :
  (IDENT parsed_ex = stars \/ IDENT parsed_ex = XX) /\
  gerar_combos parsed_ex ["00" : str; "05" : str; "12" : str]
  = ["BA032025.01.000039367CAF" : str; "BA032025.01.000539367CAF" : str;
     "BA032025.01.001239367CAF" : str].
Proof.
  split; [left; reflexivity|].
  rewrite (gerar_combos_wildcard parsed_ex) by (left; reflexivity).
  reflexivity.
Defined.

(** C3: when IDENT is two digits, [gerar_combos] returns the one combo
    prefix+IDENT+tail exactly when IDENT is a member of the list, and the
    empty list when it is not. *)
Theorem gerar_combos_literal parsed ids :
  digits 2 (IDENT parsed) ->
  (gerar_combos parsed ids
   = [UF parsed ++ MES parsed ++ ANO parsed ++ dot ++ COD1 parsed ++ dot
        ++ COD2 parsed ++ IDENT parsed ++ TAIL parsed ++ CAF]
   <-> In (IDENT parsed) ids)
  /\ (~ In (IDENT parsed) ids -> gerar_combos parsed ids = []).
Proof.
  intros H. apply fullmatch_2_digits_spec in H.
  rewrite gerar_combos_eq, H. fold (combo_of parsed (IDENT parsed)).
  destruct (str_in (IDENT parsed) ids) eqn:E.
  - apply str_in_In in E. tauto.
  - apply str_in_not_In in E. split; [|reflexivity].
    split; [discriminate | tauto].
Qed.

Lemma gerar_combos_literal_witness :
  digits 2 (IDENT parsed_ex_05) /\
  gerar_combos parsed_ex_05 ["00" : str; "12" : str] = [] /\
  gerar_combos parsed_ex_05 ["00" : str; "05" : str] = [code_ex_05].
Proof.
  assert (D : digits 2 (IDENT parsed_ex_05)) by (split; reflexivity).
  split; [exact D|]. split.
  - apply (gerar_combos_literal parsed_ex_05 _ D).
    simpl. intros [H | [H | []]]; discriminate.
  - apply (gerar_combos_literal parsed_ex_05 _ D).
    simpl. right. left. reflexivity.
Defined.

(** ** Reading the spreadsheet *)

Lemma ident_val_eq (row : list cell) :
  (if (6 <=? length row)%nat then nth 5 row CNone else CNone)
  = nth 5 row CNone.
Proof.
  destruct (Nat.leb_spec 6 (length row)); [reflexivity|].
  symmetry. apply nth_overflow. lia.
Qed.

Section Loop.

Variables mes ano : str.

Lemma row_step_eq st row :
  row_step mes ano st row
  = if wide_enough row
    then Ok (add_contribution st (contributes mes ano row))
    else Raise (IndexError "tuple index out of range").
Proof.
  unfold row_step. rewrite ident_val_eq.
  unfold contributes, row_matches, row_ident, wide_enough.
  destruct row as [|c0 [|c1 [|c2 row]]]; try reflexivity.
  cbn [tuple_get nth_error rbind nth length Nat.leb].
  destruct (_ && _)%bool; [|reflexivity].
  destruct (ident_int _) as [n|]; [|reflexivity].
  destruct (_ && _)%bool; [|reflexivity].
  destruct st as [vistos ids]. simpl.
  destruct (str_in (fmt_02d n) vistos); reflexivity.
Qed.

(** The loop raises IndexError exactly when a row stops before the year
    column, and otherwise collects the contributions of the rows. *)
Lemma scan_eq rows : forall st,
  scan mes ano st rows
  = if forallb wide_enough rows
    then Ok (collect mes ano rows st)
    else Raise (IndexError "tuple index out of range").
Proof.
  induction rows as [|row rows IH]; intros st; simpl; [reflexivity|].
  rewrite row_step_eq. destruct (wide_enough row); simpl; [|reflexivity].
  apply IH.
Qed.

Lemma contributes_spec row x :
  contributes mes ano row = Some x <->
  exists n,
    mes_ok (nth 1 row CNone) = Some mes /\
    ano_ok (nth 2 row CNone) = Some ano /\
    ident_int (nth 5 row CNone) = Some n /\
    0 <= n <= 99 /\ x = fmt_02d n.
Proof.
  unfold contributes, row_matches, row_ident, opt_str_eqb.
  destruct (mes_ok _) as [m|]; simpl.
  2:{ split; [discriminate | intros (n & H & _); discriminate]. }
  destruct (str_eqb m mes) eqn:Em; simpl.
  2:{ apply str_eqb_neq in Em.
      split; [discriminate | intros (n & H & _); congruence]. }
  apply str_eqb_eq in Em. subst m.
  destruct (ano_ok _) as [a|]; simpl.
  2:{ split; [discriminate | intros (n & _ & H & _); discriminate]. }
  destruct (str_eqb a ano) eqn:Ea; simpl.
  2:{ apply str_eqb_neq in Ea.
      split; [discriminate | intros (n & _ & H & _); congruence]. }
  apply str_eqb_eq in Ea. subst a.
  destruct (ident_int _) as [n|]; simpl.
  2:{ split; [discriminate | intros (n & _ & _ & H & _); discriminate]. }
  destruct (0 <=? n) eqn:E0; destruct (n <=? 99) eqn:E1; simpl;
    try (split; [discriminate | intros (k & _ & _ & [= <-] & ? & _); lia]).
  split.
  - intros [= <-]. exists n. repeat split; lia.
  - intros (k & _ & _ & [= <-] & _ & ->). reflexivity.
Qed.

Lemma contributes_is_cod row x :
  contributes mes ano row = Some x -> is_cod x.
Proof.
  intros H. apply contributes_spec in H as (n & _ & _ & _ & R & E).
  now exists n.
Qed.

Lemma NoDup_snoc (A : Type) (l : list A) (a : A) :
  NoDup l -> ~ In a l -> NoDup (l ++ [a]).
Proof.
  intros H N. apply NoDup_app; [assumption | repeat constructor; auto |].
  intros x Hx [<- | []]. contradiction.
Qed.

(** The invariant of the loop: [vistos] and [ids] hold the same strings,
    [ids] without repetition; and what the loop adds. *)
Lemma collect_spec rows : forall vistos ids,
  (forall x, In x vistos <-> In x ids) -> NoDup ids ->
  let '(vistos', ids') := collect mes ano rows (vistos, ids) in
  (forall x, In x vistos' <-> In x ids') /\ NoDup ids' /\
  (forall x, In x ids' <->
             In x ids \/
             exists row, In row rows /\ contributes mes ano row = Some x).
Proof.
  induction rows as [|row rows IH]; intros vistos ids Hv Hn; simpl.
  - split; [assumption|]. split; [assumption|].
    intros x. split; [tauto | intros [H | (r & [] & _)]; assumption].
  - destruct (contributes mes ano row) as [cod|] eqn:C; simpl.
    + destruct (str_in cod vistos) eqn:E.
      * specialize (IH vistos ids Hv Hn).
        destruct (collect mes ano rows (vistos, ids)) as [v' i'].
        destruct IH as (A & B & D). split; [assumption|].
        split; [assumption|]. intros x. rewrite D. split.
        -- intros [H | (r & H1 & H2)]; [tauto | right; exists r; tauto].
        -- intros [H | (r & [<- | H1] & H2)];
             [tauto | | right; exists r; tauto].
           left. rewrite C in H2. injection H2 as <-.
           apply Hv. now apply str_in_In.
      * apply str_in_not_In in E.
        assert (Hv' : forall x, In x (cod :: vistos) <-> In x (ids ++ [cod])).
        { intros x. rewrite in_app_iff. simpl. rewrite Hv. tauto. }
        assert (Hn' : NoDup (ids ++ [cod])).
        { apply NoDup_snoc; [assumption|]. now rewrite <- Hv. }
        specialize (IH (cod :: vistos) (ids ++ [cod]) Hv' Hn').
        destruct (collect mes ano rows _) as [v' i'].
        destruct IH as (A & B & D). split; [assumption|].
        split; [assumption|]. intros x. rewrite D, in_app_iff. simpl.
        split.
        -- intros [[H | [<- | []]] | (r & H1 & H2)];
             [tauto | right; exists row; tauto | right; exists r; tauto].
        -- intros [H | (r & [<- | H1] & H2)];
             [tauto | | right; exists r; tauto].
           rewrite C in H2. injection H2 as <-. tauto.
    + specialize (IH vistos ids Hv Hn).
      destruct (collect mes ano rows (vistos, ids)) as [v' i'].
      destruct IH as (A & B & D). split; [assumption|].
      split; [assumption|]. intros x. rewrite D. split.
      * intros [H | (r & H1 & H2)]; [tauto | right; exists r; tauto].
      * intros [H | (r & [<- | H1] & H2)];
          [tauto | congruence | right; exists r; tauto].
Qed.

End Loop.

Lemma cod_ok_all : forallb cod_ok (seq 0 100) = true.
Proof. vm_compute. reflexivity. Qed.

Lemma fmt_02d_spec n :
  0 <= n <= 99 ->
  int_of_str (fmt_02d n) = Some n /\ digits 2 (fmt_02d n).
Proof.
  intros H. pose proof cod_ok_all as A. rewrite forallb_forall in A.
  specialize (A (Z.to_nat n)). unfold cod_ok in A.
  rewrite Z2Nat.id in A by lia. cbv zeta in A.
  assert (I : In (Z.to_nat n) (seq 0 100)) by (apply in_seq; lia).
  apply A in I. apply andb_true_iff in I as [I1 I2].
  apply fullmatch_2_digits_spec in I2. split; [|assumption].
  destruct (int_of_str (fmt_02d n)) as [m|]; [|discriminate].
  apply Z.eqb_eq in I1. now subst.
Qed.

Lemma is_cod_digits x : is_cod x -> digits 2 x.
Proof. intros (n & H & ->). now apply fmt_02d_spec. Qed.

Lemma is_cod_int x : is_cod x -> int_of_str x = Some (int_value x).
Proof.
  intros (n & H & ->). unfold int_value.
  destruct (fmt_02d_spec n H) as [-> _]. reflexivity.
Qed.

(** *** [int] reads back what [str] writes *)

Lemma uint_chars_digits d : forallb is_digit (uint_chars d) = true.
Proof. induction d; simpl; auto. Qed.

Lemma int_digits_uint d : forall acc prev,
  prev = true \/ d <> Decimal.Nil ->
  int_digits acc prev (uint_chars d) = Some (uint_acc d acc).
Proof.
  induction d; intros acc prev H;
    try (cbn; apply IHd; now left).
  destruct H as [-> | H]; [reflexivity | contradiction].
Qed.

Lemma uint_acc_pos d : forall p,
  uint_acc d (Zpos p) = Zpos (Pos.of_uint_acc d p).
Proof.
  induction d; intros p; cbn [uint_acc Pos.of_uint_acc]; try reflexivity;
    rewrite <- IHd; f_equal; lia.
Qed.

Lemma uint_acc_zero d : uint_acc d 0 = Z.of_N (Pos.of_uint d).
Proof.
  induction d; cbn [uint_acc Pos.of_uint Z.of_N]; try reflexivity;
    try exact IHd; apply (uint_acc_pos d).
Qed.

Lemma to_uint_not_nil p : Pos.to_uint p <> Decimal.Nil.
Proof.
  intros E. pose proof (DecimalPos.Unsigned.of_to p) as H.
  rewrite E in H. discriminate.
Qed.

Lemma int_digits_to_uint p :
  int_digits 0 false (uint_chars (Pos.to_uint p)) = Some (Zpos p).
Proof.
  rewrite int_digits_uint by (right; apply to_uint_not_nil).
  now rewrite uint_acc_zero, DecimalPos.Unsigned.of_to.
Qed.

Lemma str_of_Z_pos p : str_of_Z (Zpos p) = uint_chars (Pos.to_uint p).
Proof.
  unfold str_of_Z, uint_chars. simpl.
  pose proof (to_uint_not_nil p) as H.
  destruct (Pos.to_uint p); [contradiction | reflexivity ..].
Qed.

Lemma str_of_Z_neg p :
  str_of_Z (Zneg p) = "-"%char :: uint_chars (Pos.to_uint p).
Proof.
  unfold str_of_Z, uint_chars. simpl.
  pose proof (to_uint_not_nil p) as H.
  destruct (Pos.to_uint p); [contradiction | reflexivity ..].
Qed.

Lemma str_of_Z_no_space n :
  forallb (fun c => negb (is_space c)) (str_of_Z n) = true.
Proof.
  assert (D : forall d,
             forallb (fun c => negb (is_space c)) (uint_chars d) = true).
  { intros d. apply (forallb_imp is_digit); [|apply uint_chars_digits].
    intros c Hc. now rewrite (digit_not_space c Hc). }
  destruct n as [|p|p]; [reflexivity | |].
  - rewrite str_of_Z_pos. apply D.
  - rewrite str_of_Z_neg. simpl. apply D.
Qed.

Lemma digit_no_sign c :
  is_digit c = true -> Ascii.eqb c "-" = false /\ Ascii.eqb c "+" = false.
Proof.
  assert (H : implb (is_digit c)
                (negb (Ascii.eqb c "-") && negb (Ascii.eqb c "+")) = true)
    by check_all_ascii c.
  intros E. rewrite E in H. simpl in H.
  apply andb_true_iff in H as [H1 H2].
  now rewrite negb_true_iff in H1, H2.
Qed.

(** [int(str(n)) == n] *)
Lemma int_of_str_of_Z n : int_of_str (str_of_Z n) = Some n.
Proof.
  unfold int_of_str. rewrite strip_no_space by apply str_of_Z_no_space.
  destruct n as [|p|p]; [reflexivity | |].
  - rewrite str_of_Z_pos. pose proof (int_digits_to_uint p) as H.
    pose proof (uint_chars_digits (Pos.to_uint p)) as D.
    destruct (uint_chars (Pos.to_uint p)) as [|c s]; [discriminate|].
    simpl in D. apply andb_true_iff in D as [D _].
    destruct (digit_no_sign c D) as [-> ->]. exact H.
  - rewrite str_of_Z_neg. simpl. now rewrite int_digits_to_uint.
Qed.

(** An integer cell in the identifier column is read as itself. *)
Lemma ident_int_CInt n : ident_int (CInt n) = Some n.
Proof.
  simpl. rewrite strip_no_space by apply str_of_Z_no_space.
  apply int_of_str_of_Z.
Qed.

(** A row whose three cells are integers contributes the identifier when
    it is in 0..99 and the month and year are the requested ones. *)
Lemma contributes_int_row mes ano row m y i x :
  nth 1 row CNone = CInt m -> nth 2 row CNone = CInt y ->
  nth 5 row CNone = CInt i ->
  contributes mes ano row = Some x <->
  fmt_02d m = mes /\ str_of_Z y = ano /\ 0 <= i <= 99 /\ x = fmt_02d i.
Proof.
  intros Hm Hy Hi. rewrite contributes_spec, Hm, Hy, Hi, ident_int_CInt.
  simpl. split.
  - intros (n & [= <-] & [= <-] & [= <-] & H). tauto.
  - intros (<- & <- & H & ->). exists i. tauto.
Qed.

(** *** The sort *)

Lemma insert_key_perm p l : Permutation (insert_key p l) (p :: l).
Proof.
  induction l as [|q l IH]; simpl; [reflexivity|].
  destruct (fst p <=? fst q); [reflexivity|].
  rewrite IH. apply perm_swap.
Qed.

Lemma sort_keyed_perm l : Permutation (sort_keyed l) l.
Proof.
  induction l as [|p l IH]; simpl; [reflexivity|].
  rewrite insert_key_perm. now constructor.
Qed.

Lemma insert_key_sorted p l :
  StronglySorted key_le l -> StronglySorted key_le (insert_key p l).
Proof.
  induction 1 as [|q l S IH F]; simpl.
  - repeat constructor.
  - destruct (Z.leb_spec (fst p) (fst q)) as [L | L].
    + constructor; [now constructor|]. constructor; [exact L|].
      apply Forall_impl with (2 := F). unfold key_le. intros r. lia.
    + constructor; [assumption|].
      apply (Permutation_Forall (x := p :: l)).
      * symmetry. apply insert_key_perm.
      * constructor; [unfold key_le; lia | assumption].
Qed.

Lemma sort_keyed_sorted l : StronglySorted key_le (sort_keyed l).
Proof.
  induction l as [|p l IH]; simpl; [constructor|].
  now apply insert_key_sorted.
Qed.

Lemma sort_keys_ok ids :
  Forall is_cod ids -> sort_keys ids = Ok (map keyed ids).
Proof.
  induction 1 as [|x ids Hx _ IH]; simpl; [reflexivity|].
  rewrite (is_cod_int x Hx), IH. reflexivity.
Qed.

Lemma sorted_map_snd l :
  StronglySorted key_le l ->
  Forall (fun p => fst p = int_value (snd p)) l ->
  StronglySorted int_le (map snd l).
Proof.
  induction 1 as [|p l S IH F]; intros K; simpl; [constructor|].
  inversion K as [|? ? Kp Kl]; subst.
  constructor; [now apply IH|].
  apply Forall_map. rewrite Forall_forall in *.
  intros q Hq. unfold int_le. rewrite <- Kp, <- (Kl q Hq).
  now apply F.
Qed.

Lemma sort_by_int_spec ids :
  Forall is_cod ids ->
  exists out, sort_by_int ids = Ok out /\ Permutation out ids
              /\ StronglySorted int_le out.
Proof.
  intros H. unfold sort_by_int. rewrite (sort_keys_ok ids H). simpl.
  eexists. split; [reflexivity|]. split.
  - rewrite sort_keyed_perm, map_map. simpl. now rewrite map_id.
  - apply sorted_map_snd; [apply sort_keyed_sorted|].
    apply (Permutation_Forall (x := map keyed ids)).
    + symmetry. apply sort_keyed_perm.
    + apply Forall_map, Forall_forall. reflexivity.
Qed.

(** *** The function *)

Lemma collect_ids mes ano rows :
  let ids := snd (collect mes ano rows ([], [])) in
  NoDup ids /\
  (forall x, In x ids <->
             exists row, In row rows /\ contributes mes ano row = Some x).
Proof.
  pose proof (collect_spec mes ano rows [] []) as H.
  destruct (collect mes ano rows ([], [])) as [v i]. simpl.
  destruct H as (_ & N & D); [tauto | constructor |].
  split; [assumption|]. intros x. rewrite D. simpl. tauto.
Qed.

Lemma collect_is_cod mes ano rows :
  Forall is_cod (snd (collect mes ano rows ([], []))).
Proof.
  apply Forall_forall. intros x Hx.
  apply (collect_ids mes ano rows) in Hx as (row & _ & C).
  now apply contributes_is_cod in C.
Qed.

(** What the function returns, whatever the sheet. *)
Lemma ler_eq f mes ano :
  ler_identificadores_unicos_ordenados f mes ano
  = match planilha_sheet f with
    | None =>
        Raise (FileNotFoundError
                 ("Planilha não encontrada: " ++ planilha_path f))
    | Some ws =>
        if forallb wide_enough (data_rows ws)
        then sort_by_int (snd (collect mes ano (data_rows ws) ([], [])))
        else Raise (IndexError "tuple index out of range")
    end.
Proof.
  unfold ler_identificadores_unicos_ordenados.
  destruct (planilha_sheet f) as [ws|]; [|reflexivity].
  rewrite scan_eq. destruct (forallb wide_enough (data_rows ws)); reflexivity.
Qed.



Lemma has_month_year_wide ws :
  has_month_year ws -> forallb wide_enough (data_rows ws) = true.
Proof.
  unfold has_month_year. rewrite Forall_forall, forallb_forall.
  intros H row Hr. apply Nat.leb_le. now apply H.
Qed.

Example ler_sheet_ex :
  ler_identificadores_unicos_ordenados planilha_ex "03" "2025" = Ok ids_ex.
Proof. vm_compute. reflexivity. Qed.





(** C6, on a sheet of two columns: the first data row has no cell at
    index 2, [row[2]] raises IndexError, the function returns nothing and
    the handler answers 500. *)
Theorem ler_short_row_raises :
  ler_identificadores_unicos_ordenados planilha_narrow "03" "2025"
  = Raise (IndexError "tuple index out of range")
  /\ do_POST planilha_narrow (post code_ex)
     = mkResponse 500 (Erro "Erro interno: tuple index out of range").
Proof. split; vm_compute; reflexivity. Qed.

(** ** Combos are codes *)



(** ** The request handler *)

Lemma parse_caf_strip s : parse_caf (strip s) = parse_caf s.
Proof.
  destruct s as [|c s]; [reflexivity|].
  rewrite parse_caf_nonempty. set (t := c :: s).
  assert (N : normalize (strip t) = normalize t)
    by (unfold normalize; now rewrite strip_idem).
  destruct (strip t) as [|c' s'] eqn:E.
  - unfold normalize. rewrite E. reflexivity.
  - rewrite <- N. reflexivity.
Qed.

(** The response to a request that carries a code. *)
Lemma do_POST_code f data c :
  submitted data = Ok (JStr c) ->
  do_POST f (Ok data)
  = match parse_caf c with
    | None => mkResponse 400 (Erro msg_formato_invalido)
    | Some p =>
        match ler_identificadores_unicos_ordenados f (MES p) (ANO p) with
        | Ok [] =>
            mkResponse 404 (Erro (msg_nenhum_identificador (MES p) (ANO p)))
        | Ok ids =>
            match gerar_combos p ids with
            | [] => mkResponse 404 (Erro msg_ident_ausente)
            | combos => mkResponse 200 (Combos combos)
            end
        | Raise (FileNotFoundError m) => mkResponse 500 (Erro m)
        | Raise e => mkResponse 500 (Erro ("Erro interno: " ++ exn_msg e))
        end
    end.
Proof.
  intros S. unfold do_POST, do_POST_try, caf_in. simpl. rewrite S. simpl.
  rewrite parse_caf_strip. destruct (parse_caf c) as [p|]; [|reflexivity].
  destruct (ler_identificadores_unicos_ordenados f (MES p) (ANO p))
    as [[|i ids]|e]; simpl; try reflexivity.
  destruct (gerar_combos p (i :: ids)); reflexivity.
Qed.




Lemma dict_get_absent key items :
  (forall v, ~ In (key, v) items) -> dict_get key items = JNull.
Proof.
  induction items as [|[k v] items IH]; intros H; simpl; [reflexivity|].
  destruct (str_eqb k key) eqn:E.
  - apply str_eqb_eq in E. subst k. elim (H v). now left.
  - apply IH. intros w Hw. apply (H w). now right.
Qed.

(** C10: a POST request whose body is the empty object, or an object in
    which the key caf is absent, null or the empty string, is answered
    with 400 and the message "Formato inválido ...". *)
Theorem do_POST_missing_caf f items :
  items = [] \/ (forall v, ~ In ("caf" : str, v) items)
  \/ dict_get "caf" items = JNull \/ dict_get "caf" items = JStr [] ->
  do_POST f (Ok (JDict items)) = mkResponse 400 (Erro msg_formato_invalido).
Proof.
  intros H.
  assert (G : dict_get "caf" items = JNull \/ dict_get "caf" items = JStr []).
  { destruct H as [-> | [H | H]]; [now left | | exact H].
    left. now apply dict_get_absent. }
  rewrite (do_POST_code f (JDict items) []); [reflexivity|].
  unfold submitted. destruct G as [-> | ->]; reflexivity.
Qed.

Lemma do_POST_missing_caf_witness :
  do_POST planilha_ex (Ok (JDict []))
  = mkResponse 400 (Erro msg_formato_invalido)
  /\ do_POST planilha_ex (Ok (JDict [("outro" : str, JInt 1)]))
     = mkResponse 400 (Erro msg_formato_invalido)
  /\ do_POST planilha_missing (Ok (JDict [("caf" : str, JNull)]))
     = mkResponse 400 (Erro msg_formato_invalido)
  /\ do_POST planilha_missing (Ok (JDict [("caf" : str, JStr [])]))
     = mkResponse 400 (Erro msg_formato_invalido).
Proof.
  split; [|split; [|split]]; apply do_POST_missing_caf.
  - left. reflexivity.
  - right. left. intros v [H | []]. discriminate.
  - right. right. left. reflexivity.
  - right. right. right. reflexivity.
Defined.

(** * Further properties *)

(** ** The parser *)

Lemma normalize_idem s : normalize (normalize s) = normalize s.
Proof.
  unfold normalize at 1.
  rewrite strip_id
    by (apply normalize_starts_clean || apply normalize_ends_clean).
  rewrite fixedb_upper by apply normalize_fixed.
  unfold normalize, remove_spaces. apply forallb_filter_id, forallb_filter.
Qed.

(** The test [if not caf] changes nothing: the pattern rejects the empty
    string anyway. *)
Lemma parse_caf_eq s : parse_caf s = CAF_RE_match (normalize s) (normalize s).
Proof. destruct s; reflexivity. Qed.

Lemma parse_caf_normalize s : parse_caf (normalize s) = parse_caf s.
Proof. now rewrite !parse_caf_eq, normalize_idem. Qed.




(** X3: parsing the normalized string of a successful parse gives the
    same dictionary again. *)
Theorem parse_caf_normalized_again s p :
  parse_caf s = Some p -> parse_caf (CAF_NORMALIZADO p) = Some p.
Proof.
  intros P. pose proof (parse_caf_shape _ _ P) as (N & _).
  now rewrite N, parse_caf_normalize.
Qed.

Lemma parse_caf_normalized_again_witness :
  parse_caf code_ex_spaced = Some parsed_ex /\
  parse_caf (CAF_NORMALIZADO parsed_ex) = Some parsed_ex.
Proof.
  assert (P : parse_caf code_ex_spaced = Some parsed_ex)
    by (vm_compute; reflexivity).
  split; [exact P|].
  exact (parse_caf_normalized_again code_ex_spaced parsed_ex P).
Defined.

(** ** Expansion *)

Lemma combo_of_inj p m m' : combo_of p m = combo_of p m' -> m = m'.
Proof.
  unfold combo_of. intros H.
  repeat apply app_inv_head in H. now apply app_inv_tail in H.
Qed.

Lemma gerar_combos_In p ids c :
  In c (gerar_combos p ids) -> exists m, In m ids /\ c = combo_of p m.
Proof.
  rewrite gerar_combos_eq.
  destruct (fullmatch_2_digits (IDENT p)).
  - destruct (str_in (IDENT p) ids) eqn:E; [|intros []].
    apply str_in_In in E. intros [<- | []]. now exists (IDENT p).
  - intros H. apply in_map_iff in H as (m & <- & H). now exists m.
Qed.

(** X4: [gerar_combos] never makes up an identifier: each string it
    returns is the code of the dictionary with a member of the list in the
    identifier slot, in both branches; on the empty list it returns the
    empty list. *)
Theorem gerar_combos_from_list p ids :
  (forall c, In c (gerar_combos p ids) ->
             exists m, In m ids /\ c = combo_of p m)
  /\ gerar_combos p [] = [].
Proof.
  split; [apply gerar_combos_In|].
  rewrite gerar_combos_eq.
  destruct (fullmatch_2_digits (IDENT p)); reflexivity.
Qed.

Lemma NoDup_gerar_combos p ids : NoDup ids -> NoDup (gerar_combos p ids).
Proof.
  intros N. rewrite gerar_combos_eq.
  destruct (fullmatch_2_digits (IDENT p)).
  - destruct (str_in (IDENT p) ids); repeat constructor. intros [].
  - induction N as [|m ids Hm _ IH]; simpl; constructor; [|exact IH].
    intros H. apply in_map_iff in H as (m' & E & H).
    apply combo_of_inj in E. now subst.
Qed.

(** X5: a list without repetition gives combos without repetition. *)
Theorem gerar_combos_NoDup p ids :
  NoDup ids -> NoDup (gerar_combos p ids).
Proof. apply NoDup_gerar_combos. Qed.

Lemma NoDup_ids_ex : NoDup ids_ex.
Proof.
  repeat constructor; simpl; intros H;
    repeat (destruct H as [H | H]; [discriminate|]); exact H.
Qed.

Lemma gerar_combos_NoDup_witness :
  NoDup ids_ex /\ NoDup (gerar_combos parsed_ex ids_ex).
Proof.
  split; [exact NoDup_ids_ex|].
  exact (gerar_combos_NoDup parsed_ex ids_ex NoDup_ids_ex).
Defined.

(** X6: for a dictionary that [parse_caf] returned with a two-digit IDENT
    that is in the list, the one combo is the normalized input itself. *)
Theorem gerar_combos_literal_is_input s p ids :
  parse_caf s = Some p -> digits 2 (IDENT p) -> In (IDENT p) ids ->
  gerar_combos p ids = [CAF_NORMALIZADO p].
Proof.
  intros P D I. apply parse_caf_shape in P as (N & E & _).
  rewrite gerar_combos_eq.
  apply fullmatch_2_digits_spec in D. apply str_in_In in I.
  rewrite D, I, N, E. reflexivity.
Qed.

Lemma gerar_combos_literal_is_input_witness :
  parse_caf code_ex_05 = Some parsed_ex_05 /\
  digits 2 (IDENT parsed_ex_05) /\ In (IDENT parsed_ex_05) ids_ex /\
  gerar_combos parsed_ex_05 ids_ex = [CAF_NORMALIZADO parsed_ex_05].
Proof.
  assert (P : parse_caf code_ex_05 = Some parsed_ex_05)
    by (vm_compute; reflexivity).
  assert (D : digits 2 (IDENT parsed_ex_05)) by (split; reflexivity).
  assert (I : In (IDENT parsed_ex_05) ids_ex) by (left; reflexivity).
  split; [exact P|]. split; [exact D|]. split; [exact I|].
  exact (gerar_combos_literal_is_input code_ex_05 parsed_ex_05 ids_ex P D I).
Defined.

Lemma parse_combo_of s p m :
  parse_caf s = Some p -> digits 2 m ->
  parse_caf (combo_of p m)
  = Some (mkParsed (UF p) (MES p) (ANO p) (COD1 p) (COD2 p) m (TAIL p)
            (combo_of p m)).
Proof.
  intros P D.
  apply parse_caf_shape in P as (_ & _ & H0 & H1 & H2 & H3 & H4 & _ & H6).
  now destruct (parse_caf_coded (UF p) (MES p) (ANO p) (COD1 p) (COD2 p) m
                  (TAIL p)) as [Pc _]; auto using slot_digits.
Qed.

(** X7: a combo parses back to the dictionary it was made from, with the
    identifier in IDENT and the combo as normalized string: the other
    groups are kept. *)
Theorem parse_caf_of_combo s p m :
  parse_caf s = Some p -> digits 2 m ->
  parse_caf (combo_of p m)
  = Some (mkParsed (UF p) (MES p) (ANO p) (COD1 p) (COD2 p) m (TAIL p)
            (combo_of p m)).
Proof. apply parse_combo_of. Qed.

Lemma parse_caf_of_combo_witness :
  parse_caf code_ex_lower = Some parsed_ex /\ digits 2 ("05" : str) /\
  parse_caf (combo_of parsed_ex "05") = Some parsed_ex_05.
Proof.
  assert (P : parse_caf code_ex_lower = Some parsed_ex)
    by (vm_compute; reflexivity).
  assert (D : digits 2 ("05" : str)) by (split; reflexivity).
  split; [exact P|]. split; [exact D|].
  exact (parse_caf_of_combo code_ex_lower parsed_ex "05" P D).
Defined.

(** ** The reader *)

Lemma is_cod_value x :
  is_cod x -> 0 <= int_value x <= 99 /\ fmt_02d (int_value x) = x.
Proof.
  intros (n & H & ->). unfold int_value.
  destruct (fmt_02d_spec n H) as [-> _]. auto.
Qed.

Lemma is_cod_inj a b :
  is_cod a -> is_cod b -> int_value a = int_value b -> a = b.
Proof.
  intros Ha Hb E.
  destruct (is_cod_value a Ha) as [_ <-].
  destruct (is_cod_value b Hb) as [_ <-]. now rewrite E.
Qed.

Lemma sorted_strict l :
  StronglySorted int_le l -> NoDup l -> Forall is_cod l ->
  StronglySorted int_lt l.
Proof.
  induction 1 as [|a l S IH F]; intros N C; [constructor|].
  inversion N as [|? ? Na Nl]; inversion C as [|? ? Ca Cl]; subst.
  constructor; [now apply IH|].
  rewrite Forall_forall in *. intros b Hb.
  specialize (F b Hb). unfold int_le in F. unfold int_lt.
  destruct (Z.eq_dec (int_value a) (int_value b)) as [E | E]; [|lia].
  apply is_cod_inj in E; [|assumption | now apply Cl]. now subst.
Qed.


(** The list that the function returns for rows that all reach the year
    column. *)
Lemma sorted_output mes ano rows :
  exists out,
    sort_by_int (snd (collect mes ano rows ([], []))) = Ok out /\
    StronglySorted int_lt out /\ NoDup out /\ Forall is_cod out /\
    forall x, In x out <->
              exists row, In row rows /\ contributes mes ano row = Some x.
Proof.
  pose proof (collect_is_cod mes ano rows) as C.
  destruct (collect_ids mes ano rows) as [N D].
  destruct (sort_by_int_spec _ C) as (out & E & P & S).
  exists out. split; [exact E|].
  assert (N' : NoDup out) by (apply Permutation_NoDup with (2 := N);
                              now symmetry).
  assert (C' : Forall is_cod out)
    by (apply (Permutation_Forall (x := snd (collect mes ano rows ([], []))));
        [now symmetry | exact C]).
  split; [now apply sorted_strict|]. split; [exact N'|]. split; [exact C'|].
  intros x. rewrite <- D. split; apply Permutation_in;
    [assumption | now symmetry].
Qed.

Lemma ler_ok_full f mes ano ids :
  ler_identificadores_unicos_ordenados f mes ano = Ok ids ->
  exists ws,
    planilha_sheet f = Some ws /\ forallb wide_enough (data_rows ws) = true /\
    StronglySorted int_lt ids /\ NoDup ids /\ Forall is_cod ids /\
    forall x, In x ids <->
              exists row, In row (data_rows ws)
                          /\ contributes mes ano row = Some x.
Proof.
  rewrite ler_eq. destruct (planilha_sheet f) as [ws|]; [|discriminate].
  destruct (forallb wide_enough (data_rows ws)) eqn:W; [|discriminate].
  destruct (sorted_output mes ano (data_rows ws)) as (out & -> & H).
  intros [= <-]. exists ws. tauto.
Qed.










Lemma is_cod_in_all x : is_cod x -> In x all_cods.
Proof.
  intros (n & H & ->). unfold all_cods. apply in_map_iff.
  exists (Z.to_nat n). split; [now rewrite Z2Nat.id by lia|].
  apply in_seq. lia.
Qed.

(** X11: every identifier that the reader returns is two digits, the text
    [f"{n:02d}"] of its own integer value [n], which is in 0..99; the list
    has at most 100 members. *)
Theorem ler_ids_bounded f mes ano ids :
  ler_identificadores_unicos_ordenados f mes ano = Ok ids ->
  (length ids <= 100)%nat /\
  Forall (fun x => digits 2 x /\ int_of_str x = Some (int_value x) /\
                   0 <= int_value x <= 99 /\ fmt_02d (int_value x) = x) ids.
Proof.
  intros H. apply ler_ok_full in H as (ws & _ & _ & _ & N & C & _). split.
  - change 100%nat with (length all_cods).
    apply NoDup_incl_length; [exact N|].
    intros x Hx. rewrite Forall_forall in C. now apply is_cod_in_all, C.
  - apply Forall_impl with (2 := C). intros x Hx.
    split; [now apply is_cod_digits|]. split; [now apply is_cod_int|].
    now apply is_cod_value.
Qed.

Lemma ler_ids_bounded_witness :
  ler_identificadores_unicos_ordenados planilha_ex "03" "2025" = Ok ids_ex /\
  ((length ids_ex <= 100)%nat /\
   Forall (fun x => digits 2 x /\ int_of_str x = Some (int_value x) /\
                    0 <= int_value x <= 99 /\ fmt_02d (int_value x) = x)
     ids_ex).
Proof.
  assert (L : ler_identificadores_unicos_ordenados planilha_ex "03" "2025"
              = Ok ids_ex) by (vm_compute; reflexivity).
  split; [exact L|]. exact (ler_ids_bounded planilha_ex "03" "2025" ids_ex L).
Defined.

(** X12: the list that the reader returns is strictly ascending in the
    integer values of its members. *)
Theorem ler_strictly_ascending f mes ano ids :
  ler_identificadores_unicos_ordenados f mes ano = Ok ids ->
  StronglySorted (fun a b => int_value a < int_value b) ids.
Proof. intros H. now apply ler_ok_full in H as (ws & _ & _ & S & _). Qed.

Lemma ler_strictly_ascending_witness :
  ler_identificadores_unicos_ordenados planilha_ex "03" "2025" = Ok ids_ex /\
  StronglySorted (fun a b => int_value a < int_value b) ids_ex.
Proof.
  assert (L : ler_identificadores_unicos_ordenados planilha_ex "03" "2025"
              = Ok ids_ex) by (vm_compute; reflexivity).
  split; [exact L|].
  exact (ler_strictly_ascending planilha_ex "03" "2025" ids_ex L).
Defined.



(** *** Cells that hold text *)



(** *** A year written with a leading zero *)

Lemma nzhead_not_D0 d u : Decimal.nzhead d <> Decimal.D0 u.
Proof. induction d; simpl; try discriminate. assumption. Qed.

Lemma to_uint_not_D0 p d : Pos.to_uint p <> Decimal.D0 d.
Proof.
  intros E.
  pose proof (DecimalPos.Unsigned.to_of (Pos.to_uint p)) as H.
  rewrite DecimalPos.Unsigned.of_to in H. cbn [N.to_uint] in H.
  rewrite E in H. unfold Decimal.unorm in H. cbn [Decimal.nzhead] in H.
  destruct (Decimal.nzhead d) eqn:Hn; try discriminate.
  - injection H as ->.
    pose proof (DecimalPos.Unsigned.of_to p) as O. rewrite E in O.
    discriminate.
  - now apply nzhead_not_D0 in Hn.
Qed.

(** [str(n)] starts with a zero for [n = 0] only. *)
Lemma str_of_Z_zero n rest : str_of_Z n = "0"%char :: rest -> rest = [].
Proof.
  destruct n as [|p|p].
  - now intros [= <-].
  - rewrite str_of_Z_pos. unfold uint_chars.
    pose proof (to_uint_not_D0 p) as H.
    destruct (Pos.to_uint p); try discriminate. now elim (H u).
  - rewrite str_of_Z_neg. discriminate.
Qed.

Lemma ano_ok_zero v rest : rest <> [] -> ano_ok v <> Some ("0"%char :: rest).
Proof.
  intros R H. unfold ano_ok in H.
  assert (E : exists n, str_of_Z n = "0"%char :: rest).
  { destruct v as [|b|z|t|s0|]; try discriminate;
      (destruct (int_of_cell _) as [k|]; [|discriminate]);
      injection H as H; now exists k. }
  destruct E as [k E]. apply str_of_Z_zero in E. contradiction.
Qed.

Lemma contributes_zero_year mes rest row :
  rest <> [] -> contributes mes ("0"%char :: rest) row = None.
Proof.
  intros R. destruct (contributes _ _ row) as [x|] eqn:C; [|reflexivity].
  apply contributes_spec in C as (n & _ & H & _).
  now apply ano_ok_zero in H.
Qed.

(** X15: the year of a row is compared as the text [str(int(...))], which
    has no leading zero: when the requested year starts with a zero and
    has more characters, no row matches and the reader returns the empty
    list, whatever the sheet holds. *)
Theorem ler_year_leading_zero f ws mes rest :
  planilha_sheet f = Some ws -> has_month_year ws -> rest <> [] ->
  ler_identificadores_unicos_ordenados f mes ("0"%char :: rest) = Ok [].
Proof.
  intros Hs W R. rewrite ler_eq, Hs, (has_month_year_wide ws W).
  destruct (sorted_output mes ("0"%char :: rest) (data_rows ws))
    as (out & -> & _ & _ & _ & D).
  destruct out as [|x out]; [reflexivity|].
  destruct (proj1 (D x)) as (row & _ & C); [now left|].
  now rewrite contributes_zero_year in C.
Qed.

Lemma has_month_year_sheet_999 : has_month_year sheet_999.
Proof. repeat constructor. Qed.

Lemma ler_year_leading_zero_witness :
  planilha_sheet planilha_999 = Some sheet_999 /\ has_month_year sheet_999 /\
  ("999" : str) <> [] /\
  ler_identificadores_unicos_ordenados planilha_999 "03" "0999" = Ok [].
Proof.
  split; [reflexivity|]. split; [exact has_month_year_sheet_999|].
  split; [discriminate|].
  apply (ler_year_leading_zero planilha_999 sheet_999 "03" "999" eq_refl
           has_month_year_sheet_999).
  discriminate.
Defined.

(** ** The request handler *)

Lemma submitted_post s :
  submitted (JDict [("caf" : str, JStr s)]) = Ok (JStr s).
Proof. destruct s; reflexivity. Qed.

Lemma do_POST_post f s :
  do_POST f (post s) = do_POST f (Ok (JDict [("caf" : str, JStr s)])).
Proof. reflexivity. Qed.

Lemma do_POST_outcome f request : outcome f request (do_POST f request).
Proof.
  destruct request as [data|e].
  2:{ unfold do_POST, do_POST_try. simpl. destruct e; constructor. }
  destruct (submitted data) as [v|e] eqn:S.
  2:{ unfold do_POST, do_POST_try, caf_in. simpl. rewrite S. simpl.
      destruct e; constructor. }
  destruct v as [| | | |c| |];
    try (unfold do_POST, do_POST_try, caf_in; simpl; rewrite S; simpl;
         constructor).
  rewrite (do_POST_code f data c S).
  destruct (parse_caf c) as [p|] eqn:P;
    [|now apply (outcome_invalid _ _ data c)].
  destruct (ler_identificadores_unicos_ordenados f (MES p) (ANO p))
    as [[|i ids]|e] eqn:L.
  - now apply (outcome_none _ _ data c p).
  - destruct (gerar_combos p (i :: ids)) as [|x l] eqn:G.
    + now apply (outcome_absent _ _ data c p (i :: ids)).
    + rewrite <- G. apply (outcome_combos _ _ data c p (i :: ids)); auto;
        congruence.
  - destruct e; constructor.
Qed.

(** X16: whatever the request, the status is 200, 400, 404 or 500; the
    body holds combos exactly when the status is 200, and then the list is
    not empty. *)
Theorem do_POST_status f request :
  let r := do_POST f request in
  (status r = 200 \/ status r = 400 \/ status r = 404 \/ status r = 500) /\
  (status r = 200 <-> exists combos, body r = Combos combos) /\
  (forall combos, body r = Combos combos -> combos <> []).
Proof.
  cbv zeta. destruct (do_POST_outcome f request); simpl.
  1-4: (split; [tauto|]; split;
        [split; [discriminate | intros [l Hl]; discriminate]
        | intros l Hl; discriminate]).
  split; [tauto|]. split.
  - split; [eauto | reflexivity].
  - now intros l [= <-].
Qed.





(** X18: a combo of a 200 response, posted as a code of its own, is
    answered with 200 and itself as the only combo. *)
Theorem do_POST_combo_again f request combos c :
  do_POST f request = mkResponse 200 (Combos combos) -> In c combos ->
  do_POST f (post c) = mkResponse 200 (Combos [c]).
Proof.
  intros H I. pose proof (do_POST_outcome f request) as O. rewrite H in O.
  inversion O as [| | | |data c0 p ids _ _ P L N G E]; subst.
  apply gerar_combos_In in I as (m & Hm & ->).
  pose proof (ler_ok_full _ _ _ _ L) as (ws & _ & _ & _ & _ & C & _).
  assert (D : digits 2 m)
    by (rewrite Forall_forall in C; now apply is_cod_digits, C).
  rewrite do_POST_post, (do_POST_code _ _ _ (submitted_post _)).
  rewrite (parse_combo_of c0 p m P D). cbn [MES ANO]. rewrite L.
  destruct ids as [|i ids]; [contradiction|].
  rewrite gerar_combos_eq. cbn [IDENT].
  apply fullmatch_2_digits_spec in D. apply str_in_In in Hm.
  rewrite D, Hm. reflexivity.
Qed.

Lemma do_POST_combo_again_witness :
  do_POST planilha_ex (post code_ex_lower)
  = mkResponse 200 (Combos (map (combo_of parsed_ex) ids_ex)) /\
  In code_ex_05 (map (combo_of parsed_ex) ids_ex) /\
  do_POST planilha_ex (post code_ex_05) = mkResponse 200 (Combos [code_ex_05]).
Proof.
  assert (H : do_POST planilha_ex (post code_ex_lower)
              = mkResponse 200 (Combos (map (combo_of parsed_ex) ids_ex)))
    by (vm_compute; reflexivity).
  assert (I : In code_ex_05 (map (combo_of parsed_ex) ids_ex))
    by (left; reflexivity).
  split; [exact H|]. split; [exact I|].
  exact (do_POST_combo_again planilha_ex _ _ code_ex_05 H I).
Defined.

(** X19: the response depends on the posted code through its normalized
    string only: two codes with the same normalization get the same
    response. *)
Theorem do_POST_same_normalization f s s' :
  normalize s = normalize s' -> do_POST f (post s) = do_POST f (post s').
Proof.
  intros E. rewrite !do_POST_post.
  rewrite !(do_POST_code _ _ _ (submitted_post _)).
  now rewrite !parse_caf_eq, E.
Qed.

Lemma do_POST_same_normalization_witness :
  normalize code_ex_spaced = normalize code_ex /\
  do_POST planilha_ex (post code_ex_spaced) = do_POST planilha_ex (post code_ex).
Proof.
  assert (E : normalize code_ex_spaced = normalize code_ex)
    by (vm_compute; reflexivity).
  split; [exact E|]. exact (do_POST_same_normalization planilha_ex _ _ E).
Defined.

(** X20: bodies that carry no text under the key caf.  A decoded body
    that is no object, and a value under caf that is true in a test and
    no string, end in AttributeError and the answer 500 "Erro interno";
    every value that is false in a test (null, false, 0, 0.0, the empty
    string, list or object) is taken for the empty code and answered with
    400. *)
Theorem do_POST_no_text f :
  (forall data,
     (forall items, data <> JDict items) ->
     do_POST f (Ok data)
     = mkResponse 500
         (Erro ("Erro interno: '" ++ type_name data
                  ++ "' object has no attribute 'get'")))
  /\
  (forall items,
     truthy (dict_get "caf" items) = true ->
     (forall s, dict_get "caf" items <> JStr s) ->
     do_POST f (Ok (JDict items))
     = mkResponse 500
         (Erro ("Erro interno: '" ++ type_name (dict_get "caf" items)
                  ++ "' object has no attribute 'strip'")))
  /\
  (forall items,
     truthy (dict_get "caf" items) = false ->
     do_POST f (Ok (JDict items))
     = mkResponse 400 (Erro msg_formato_invalido)).
Proof.
  split; [|split].
  - intros data H. destruct data; try reflexivity. now elim (H items).
  - intros items T H.
    assert (S : submitted (JDict items) = Ok (dict_get "caf" items))
      by (unfold submitted; now rewrite T).
    unfold do_POST, do_POST_try, caf_in. cbn [rbind]. rewrite S. cbn [rbind].
    destruct (dict_get "caf" items); try reflexivity. now elim (H s).
  - intros items T. rewrite (do_POST_code f (JDict items) []); [reflexivity|].
    unfold submitted. now rewrite T.
Qed.

Lemma do_POST_no_text_witness :
  do_POST planilha_ex (Ok (JList []))
  = mkResponse 500
      (Erro "Erro interno: 'list' object has no attribute 'get'")
  /\ do_POST planilha_ex (Ok (JDict [("caf" : str, JInt 7)]))
     = mkResponse 500
         (Erro "Erro interno: 'int' object has no attribute 'strip'")
  /\ do_POST planilha_ex (Ok (JDict [("caf" : str, JInt 0)]))
     = mkResponse 400 (Erro msg_formato_invalido).
Proof.
  destruct (do_POST_no_text planilha_ex) as (H1 & H2 & H3).
  split; [|split].
  - apply (H1 (JList [])). discriminate.
  - apply (H2 [("caf" : str, JInt 7)]); [reflexivity | discriminate].
  - apply (H3 [("caf" : str, JInt 0)]). reflexivity.
Defined.

(** X21: a code whose year starts with a zero is always answered with 404
    "Nenhum identificador encontrado", on every sheet that exists and
    whose data rows reach the year column. *)
Theorem do_POST_year_leading_zero f ws c p rest :
  planilha_sheet f = Some ws -> has_month_year ws ->
  parse_caf c = Some p -> ANO p = "0"%char :: rest ->
  do_POST f (post c)
  = mkResponse 404 (Erro (msg_nenhum_identificador (MES p) (ANO p))).
Proof.
  intros Hs W P A.
  rewrite do_POST_post, (do_POST_code _ _ _ (submitted_post _)), P.
  pose proof (parse_caf_shape _ _ P) as (_ & _ & _ & _ & [L _] & _).
  rewrite A in *. rewrite ler_eq, Hs, (has_month_year_wide ws W).
  destruct (sorted_output (MES p) ("0"%char :: rest) (data_rows ws))
    as (out & -> & _ & _ & _ & D).
  destruct out as [|x out]; [reflexivity|].
  destruct (proj1 (D x)) as (row & _ & C); [now left|].
  rewrite contributes_zero_year in C; [discriminate|].
  destruct rest; [discriminate | discriminate].
Qed.

Lemma do_POST_year_leading_zero_witness :
  planilha_sheet planilha_999 = Some sheet_999 /\ has_month_year sheet_999 /\
  parse_caf code_ex_0999 = Some parsed_ex_0999 /\
  ANO parsed_ex_0999 = "0"%char :: ("999" : str) /\
  do_POST planilha_999 (post code_ex_0999)
  = mkResponse 404 (Erro (msg_nenhum_identificador "03" "0999")).
Proof.
  assert (P : parse_caf code_ex_0999 = Some parsed_ex_0999)
    by (vm_compute; reflexivity).
  split; [reflexivity|]. split; [exact has_month_year_sheet_999|].
  split; [exact P|]. split; [reflexivity|].
  exact (do_POST_year_leading_zero planilha_999 sheet_999 code_ex_0999
           parsed_ex_0999 "999" eq_refl has_month_year_sheet_999 P eq_refl).
Defined.

(** ** Responses on the wire *)

Lemma escape_char_printable c : forallb printable (escape_char c) = true.
Proof. check_all_ascii c. Qed.

Lemma forallb_flat_map (A B : Type) (p : B -> bool) (g : A -> list B) l :
  (forall a, forallb p (g a) = true) -> forallb p (flat_map g l) = true.
Proof.
  intros H. induction l as [|a l IH]; simpl; [reflexivity|].
  now rewrite forallb_app, H, IH.
Qed.

Lemma dumps_str_printable s : forallb printable (dumps_str s) = true.
Proof.
  unfold dumps_str. cbn [forallb]. rewrite forallb_app.
  rewrite (forallb_flat_map _ _ printable escape_char s escape_char_printable).
  reflexivity.
Qed.

Lemma join_printable sep parts :
  forallb printable sep = true ->
  Forall (fun x => forallb printable x = true) parts ->
  forallb printable (join sep parts) = true.
Proof.
  intros Hs. induction 1 as [|x parts Hx F IH]; [reflexivity|].
  cbn [join]. destruct parts as [|y parts]; [exact Hx|].
  now rewrite !forallb_app, Hx, Hs, IH.
Qed.

Lemma dumps_value_printable v : forallb printable (dumps_value v) = true.
Proof.
  destruct v as [s|[]|l]; try reflexivity; [apply dumps_str_printable|].
  cbn [dumps_value]. rewrite !forallb_app. cbn [forallb].
  rewrite join_printable; [reflexivity | reflexivity |].
  apply Forall_map, Forall_forall. intros x _. apply dumps_str_printable.
Qed.

Lemma dumps_dict_printable d : forallb printable (dumps_dict d) = true.
Proof.
  unfold dumps_dict. rewrite !forallb_app.
  rewrite join_printable; [reflexivity | reflexivity |].
  apply Forall_map, Forall_forall. intros [k v] _. cbn [fst snd].
  now rewrite !forallb_app, dumps_str_printable, dumps_value_printable.
Qed.

(** X22: a response of [_send_json] announces the length of its body:
    the header Content-Length reads back, with [int], as the number of
    bytes of the body; it says that the body is JSON and carries the
    access-control headers of the answer to OPTIONS. *)
Theorem send_json_headers status payload :
  let r := _send_json status payload in
  (exists v, header "Content-Length" (http_headers r) = Some v /\
             int_of_str v = Some (Z.of_nat (length (http_body r)))) /\
  header "Content-Type" (http_headers r)
  = Some ("application/json; charset=utf-8" : str) /\
  incl (http_headers do_OPTIONS) (http_headers r).
Proof.
  cbv zeta. split; [|split].
  - eexists. split; [reflexivity|]. apply int_of_str_of_Z.
  - reflexivity.
  - intros h Hh. right. apply in_or_app. now left.
Qed.

(** X23: the body that [_send_json] writes holds no control character,
    whatever the strings of the payload hold: line feeds, tabs and the
    other characters below 0x20 are written as escapes. *)
Theorem send_json_body_printable status payload :
  forallb (fun c => negb (code c <? 32)%N)
    (http_body (_send_json status payload)) = true.
Proof. apply dumps_dict_printable. Qed.

Lemma unescape_escape c r :
  unescape_char (escape_char c ++ r) = Some (c, r).
Proof. destruct c as [[] [] [] [] [] [] [] []]; reflexivity. Qed.

Lemma escaped_inj s1 : forall s2 r1 r2,
  flat_map escape_char s1 ++ dquote :: r1
  = flat_map escape_char s2 ++ dquote :: r2 ->
  s1 = s2 /\ r1 = r2.
Proof.
  induction s1 as [|c1 s1 IH]; intros [|c2 s2] r1 r2 H.
  - now injection H as ->.
  - apply (f_equal unescape_char) in H. cbn [flat_map] in H.
    rewrite <- app_assoc, unescape_escape in H. discriminate.
  - apply (f_equal unescape_char) in H. cbn [flat_map] in H.
    rewrite <- app_assoc, unescape_escape in H. discriminate.
  - cbn [flat_map] in H. rewrite <- !app_assoc in H.
    pose proof (f_equal unescape_char H) as U.
    rewrite !unescape_escape in U. injection U as -> U.
    apply IH in U as [-> ->]. auto.
Qed.

Lemma dumps_str_inj s1 s2 r1 r2 :
  dumps_str s1 ++ r1 = dumps_str s2 ++ r2 -> s1 = s2 /\ r1 = r2.
Proof.
  unfold dumps_str. cbn [app]. rewrite <- !app_assoc. cbn [app].
  intros [= H]. now apply escaped_inj.
Qed.

Lemma join_cons_app sep x parts r :
  join sep (x :: parts) ++ r
  = x ++ match parts with
         | [] => r
         | _ => sep ++ join sep parts ++ r
         end.
Proof.
  cbn [join]. destruct parts; [reflexivity|]. now rewrite <- !app_assoc.
Qed.

Lemma items_inj l1 : forall l2 r1 r2,
  join ", " (map dumps_str l1) ++ "]"%char :: r1
  = join ", " (map dumps_str l2) ++ "]"%char :: r2 ->
  l1 = l2 /\ r1 = r2.
Proof.
  induction l1 as [|x l1 IH]; intros [|y l2] r1 r2 H.
  - now injection H as ->.
  - cbn [map] in H. rewrite join_cons_app in H. discriminate.
  - cbn [map] in H. rewrite join_cons_app in H. discriminate.
  - cbn [map] in H. rewrite !join_cons_app in H.
    apply dumps_str_inj in H as [-> H].
    destruct l1 as [|x' l1]; destruct l2 as [|y' l2];
      try discriminate.
    + now injection H as ->.
    + cbn [map] in H. apply app_inv_head in H.
      apply (IH (y' :: l2)) in H as [-> ->]. auto.
Qed.

Lemma dumps_dict_single k v :
  dumps_dict [(k, v)] = "{" ++ dumps_str k ++ ": " ++ dumps_value v ++ "}".
Proof.
  unfold dumps_dict. cbn [map join fst snd]. now rewrite <- !app_assoc.
Qed.

Lemma dumps_payload_inj b1 b2 :
  dumps_dict (payload_dict b1) = dumps_dict (payload_dict b2) -> b1 = b2.
Proof.
  destruct b1 as [m1|l1]; destruct b2 as [m2|l2]; cbn [payload_dict];
    rewrite !dumps_dict_single; intros H; apply app_inv_head in H;
    apply dumps_str_inj in H as [K H]; try discriminate K;
    apply app_inv_head in H; cbn [dumps_value] in H.
  - apply dumps_str_inj in H as [-> _]. reflexivity.
  - rewrite <- !app_assoc in H. apply app_inv_head in H.
    apply items_inj in H as [-> _]. reflexivity.
Qed.

(** X24: the body tells the payload: two different payloads of [do_POST]
    are never written by [_send_json] as the same body, whatever
    characters their strings hold, so no message and no list of combos is
    merged with another by the escapes. *)
Theorem payload_body_differs status b1 b2 :
  b1 <> b2 ->
  http_body (_send_json status (payload_dict b1))
  <> http_body (_send_json status (payload_dict b2)).
Proof. intros N H. now apply N, dumps_payload_inj. Qed.

Lemma payload_body_differs_witness :
  Combos [("a, b" : str)] <> Combos ["a" : str; "b" : str] /\
  http_body (_send_json 200 (payload_dict (Combos [("a, b" : str)])))
  <> http_body (_send_json 200 (payload_dict (Combos ["a" : str; "b" : str]))).
Proof.
  assert (N : Combos [("a, b" : str)] <> Combos ["a" : str; "b" : str])
    by discriminate.
  split; [exact N|]. exact (payload_body_differs 200 _ _ N).
Defined.

(** ** The pattern on any input *)





(** ** Rows that contribute nothing *)


